(** * Composition of marshmallow schemas: oneOf / anyOf

    A shallow embedding of [swagger_marshmallow_codegen/schema/composed.py]
    and the properties of its candidate lookup, of the two aggregation
    policies, of the self-merge rule and of batch processing.

    Python dictionaries compared only through lookups are [gmap]s; the
    [OrderedDict] whose iteration order the code relies on is an
    association list; exceptions are an explicit result type. *)

From Stdlib Require Import ZArith String.
From stdpp Require Import base option list gmap strings sorting.

Local Open Scope string_scope.
Local Open Scope list_scope.

(** ** Python values, dictionaries and exceptions *)

(** The values the module handles. Lists and dictionaries are the
    unhashable ones: using them as a dictionary key raises [TypeError].
    A class object is identified by a number. *)
#[local] Unset Elimination Schemes.
Inductive value : Type :=
  | VNone
  | VBool (b : bool)
  | VInt (n : Z)
  | VStr (s : string)
  | VClass (c : nat)
  | VList (xs : list value)
  | VDict (kvs : list (string * value)).
#[local] Set Elimination Schemes.

(** A payload or a dumped/loaded result: field name to value. *)
Abbreviation pydict := (gmap string value).

(** An error mapping: field name, or the key [_schema], to its messages. *)
Abbreviation errdict := (gmap string (list string)).

(** The builtin exceptions the module can let escape. *)
Inductive exn : Type :=
  | KeyError (key : value)
  | IndexError
  | TypeError.

Inductive result (A : Type) : Type :=
  | Ok (a : A)
  | Raise (e : exn).
Arguments Ok {A} a.
Arguments Raise {A} e.

(** Sequencing: an exception raised by the first statement propagates. *)
#[export] Instance result_bind : MBind result := λ A B k m,
  match m with
  | Ok a => k a
  | Raise e => Raise e
  end.

(** [d.update(other)]: the keys of [other] win. *)
Definition update {V} (d other : gmap string V) : gmap string V := other ∪ d.

(** [for other in xs: d.update(other)], returning the mutated [d]. *)
Definition update_all {V} (d : gmap string V) (xs : list (gmap string V)) :
  gmap string V := foldl update d xs.

(** [d[key]] on a payload. *)
Definition getitem (d : pydict) (key : string) : result value :=
  match d !! key with
  | Some v => Ok v
  | None => Raise (KeyError (VStr key))
  end.

(** [m[v]] on a dictionary whose keys are strings, at an arbitrary value:
    only an equal string is found, an unhashable value is a [TypeError]. *)
Definition getitem_by_value {V} (m : gmap string V) (v : value) : result V :=
  match v with
  | VList _ | VDict _ => Raise TypeError
  | VStr s => match m !! s with
              | Some x => Ok x
              | None => Raise (KeyError v)
              end
  | _ => Raise (KeyError v)
  end.

(** [{key(x): x for x in xs}]: a later entry overwrites an earlier one. *)
Definition dict_of `{Countable K} {A} (key : A → K) (xs : list A) : gmap K A :=
  foldl (λ d x, <[key x := x]> d) ∅ xs.

(** ** Schemas *)

Record Field := { required : bool }.

(** What the module uses of a marshmallow schema instance: its class (an
    identity and [__name__]), [fields.items()] in order, and [dump] / [load]
    of a non-strict schema, which return data together with errors. The
    object to dump is a dictionary, as the payload to load is. *)
Record Schema := {
  cls : nat;
  cls_name : string;
  fields : list (string * Field);
  dump : pydict → pydict * errdict;
  load : pydict → bool → pydict * errdict;
}.

(** [Meta.discriminator]: the [fieldname] and the optional [mapping] from
    a discriminator value to a schema class. *)
Record Discriminator := {
  fieldname : string;
  mapping : option (list (string * nat));
}.

(** ** SchemaFinder *)

Record SchemaFinder := {
  schemas : list Schema;
  discriminator_name : option string;
  discriminator_mapping : option (gmap string Schema);
}.

(** [{name: mapping[cls] for name, cls in items}], where [mapping] is
    keyed by class; a class that is not the class of a schema is a
    [KeyError]. *)
Fixpoint named_mapping (mapping : gmap nat Schema) (items : list (string * nat))
    (acc : gmap string Schema) : result (gmap string Schema) :=
  match items with
  | [] => Ok acc
  | (name, c) :: items' =>
      match mapping !! c with
      | Some s => named_mapping mapping items' (<[name := s]> acc)
      | None => Raise (KeyError (VClass c))
      end
  end.

Definition SchemaFinder_init (ss : list Schema) (discriminator : option Discriminator)
    : result SchemaFinder :=
  match discriminator with
  | None =>
      Ok {| schemas := ss; discriminator_name := None; discriminator_mapping := None |}
  | Some d =>
      match mapping d with
      | None =>
          Ok {| schemas := ss;
                discriminator_name := Some (fieldname d);
                discriminator_mapping := Some (dict_of cls_name ss) |}
      | Some items =>
          m ← named_mapping (dict_of cls ss) items ∅;
          Ok {| schemas := ss;
                discriminator_name := Some (fieldname d);
                discriminator_mapping := Some m |}
      end
  end.

(** [[name for name, f in s.fields.items() if f.required]] *)
Definition required_names (s : Schema) : list string :=
  fst <$> filter (λ nf, required nf.2 = true) (fields s).

(** [tuple(sorted(...))] of the required names. The order on strings is
    total, so the sorted list does not depend on the sorting algorithm. *)
Definition signature (s : Schema) : list string :=
  merge_sort String.le (required_names s).

(** [d[k] = v] on an [OrderedDict]: a present key keeps its position and
    gets the new value, an absent one is appended. *)
Fixpoint od_set {K V} `{EqDecision K} (d : list (K * V)) (k : K) (v : V)
    : list (K * V) :=
  match d with
  | [] => [(k, v)]
  | (k', v') :: d' =>
      if decide (k = k') then (k', v) :: d' else (k', v') :: od_set d' k v
  end.

Definition signature_mapping (self : SchemaFinder) : list (list string * Schema) :=
  foldl (λ d s, od_set d (signature s) s) [] (schemas self).

(** [all(k in data for k in signature)] *)
Definition all_in (data : pydict) (sig : list string) : bool :=
  forallb (λ k, bool_decide (is_Some (data !! k))) sig.

(** The lookup shared by both finders when a discriminator is set:
    [(self.discriminator_mapping[data[self.discriminator_name]], )]. *)
Definition by_discriminator (self : SchemaFinder) (name : string) (data : pydict)
    : result (list Schema) :=
  v ← getitem data name;
  match discriminator_mapping self with
  | None => Raise TypeError
  | Some m => s ← getitem_by_value m v; Ok [s]
  end.

Definition find_matched_schemas (self : SchemaFinder) (data : pydict)
    : result (list Schema) :=
  match discriminator_name self with
  | Some name => by_discriminator self name data
  | None =>
      Ok (snd <$> filter (λ it, all_in data it.1 = true) (signature_mapping self))
  end.

Definition find_schemas (self : SchemaFinder) (data : pydict)
    : result (list Schema) :=
  match discriminator_name self with
  | Some name => by_discriminator self name data
  | None => Ok (schemas self)
  end.

(** ** Error messages *)

(** [repr] of a list of class names, as ["{}".format(names)] prints it.
    Class names are Python identifiers, so [repr] of each is the name
    between single quotes. *)
Definition repr_str (s : string) : string := "'" +:+ s +:+ "'".

Definition repr_list (names : list string) : string :=
  "[" +:+ String.concat ", " (repr_str <$> names) +:+ "]".

Definition satisfied_message (names : list string) : string :=
  "satisfied both of " +:+ repr_list names +:+ ", not only one".

Definition not_matched_message (names : list string) : string :=
  "not matched, any of " +:+ repr_list names.

(** [msg.startswith("not matched, any of")] *)
Definition is_not_matched (msg : string) : bool :=
  String.prefix "not matched, any of" msg.

(** ** The aggregation policies *)

(** The value of the zero-match branch of both policies:
    [for other in results[1:]: results[0].update(other)] and then
    [data if not results else results[0]]. *)
Definition merged_results (data : pydict) (results : list pydict) : pydict :=
  match results with
  | [] => data
  | r0 :: others => update_all r0 others
  end.

Module OneOfSchema.

Record t := {
  schemas : list Schema;
  include_self : bool;
}.

(** [for i, err in enumerate(errors): if not err:
      satisfied.append(schemas[i].__class__.__name__)] *)
Fixpoint satisfied_from (schemas : list Schema) (i : nat) (errors : list errdict)
    (satisfied : list string) : result (list string) :=
  match errors with
  | [] => Ok satisfied
  | err :: errors' =>
      if decide (err = ∅) then
        match schemas !! i with
        | Some s => satisfied_from schemas (S i) errors' (satisfied ++ [cls_name s])
        | None => Raise IndexError
        end
      else satisfied_from schemas (S i) errors' satisfied
  end.

Definition final_check (self : t) (data : pydict) (schemas : list Schema)
    (results : list pydict) (errors : list errdict) (compacted : list pydict)
    : result (pydict * errdict) :=
  match compacted with
  | [c] => (* len(compacted) == 1 *)
      Ok (c, ∅)
  | c0 :: others => (* len(compacted) > 1 *)
      satisfied ← satisfied_from schemas 0 errors [];
      Ok (update_all c0 others,
          {[ "_schema" := [satisfied_message satisfied] ]})
  | [] =>
      let candidates :=
        (cls_name <$> self.(OneOfSchema.schemas))
        ++ (if self.(include_self) then ["self"] else []) in
      Ok (merged_results data results,
          {[ "_schema" := [not_matched_message candidates] ]})
  end.

End OneOfSchema.

Module AnyOfSchema.

Record t := {
  schemas : list Schema;
}.

Definition final_check (self : t) (data : pydict) (schemas : list Schema)
    (results : list pydict) (errors : list errdict) (compacted : list pydict)
    : result (pydict * errdict) :=
  match compacted with
  | c0 :: others => (* len(compacted) >= 1 *)
      Ok (update_all c0 others, ∅)
  | [] =>
      Ok (merged_results data results,
          {[ "_schema" :=
               [not_matched_message (cls_name <$> self.(AnyOfSchema.schemas))] ]})
  end.

End AnyOfSchema.

(** ** Batches *)

(** The loop of [run_many] from index [i] on, with the accumulators
    [results] and [errors]; an exception raised by [fn] escapes. *)
Fixpoint run_many_from {D R} (fn : D → result (R * errdict)) (i : nat)
    (data : list D) (results : list R) (errors : gmap nat errdict)
    : result (list R * gmap nat errdict) :=
  match data with
  | [] => Ok (results, errors)
  | d :: data' =>
      '(r, err) ← fn d;
      run_many_from fn (S i) data' (results ++ [r])
        (if decide (err = ∅) then errors else <[i := err]> errors)
  end.

Definition run_many {D R} (data : list D) (fn : D → result (R * errdict))
    : result (list R * gmap nat errdict) :=
  run_many_from fn 0 data [] ∅.

(** ** Marshaller and unmarshaller *)

(** The type of a [final_check] bound to its schema. *)
Definition final_check_t : Type :=
  pydict → list Schema → list pydict → list errdict → list pydict →
  result (pydict * errdict).

(** [ComposedMarshaller] and [ComposedUnmarshaller] hold the same three
    attributes the per-item code reads. *)
Record Composed := {
  finder : SchemaFinder;
  final_check : final_check_t;
  include_self : bool;
}.

(** The loop of [_marshall_one] and [_unmarshall_one] over the candidates,
    [call] being [s.dump(data, update_fields=False)] or
    [s.load(data, partial=partial)]; it returns
    [(results, errors, compacted)]. *)
Fixpoint attempt (call : Schema → pydict * errdict) (schemas : list Schema)
    (results : list pydict) (errors : list errdict) (compacted : list pydict)
    : list pydict * list errdict * list pydict :=
  match schemas with
  | [] => (results, errors, compacted)
  | s :: schemas' =>
      let '(r, err) := call s in
      attempt call schemas' (results ++ [r]) (errors ++ [err])
        (if decide (err = ∅) then compacted ++ [r] else compacted)
  end.

(** What both per-item methods do once they have their candidates: run
    the loop and hand its three lists to [final_check]. *)
Definition aggregate (final_check : final_check_t) (call : Schema → pydict * errdict)
    (data : pydict) (schemas : list Schema) : result (pydict * errdict) :=
  let '(results, errors, compacted) := attempt call schemas [] [] [] in
  final_check data schemas results errors compacted.

Definition _marshall_one (self : Composed) (data : pydict)
    : result (pydict * errdict) :=
  schemas ← find_matched_schemas self.(finder) data;
  aggregate self.(final_check) (λ s, dump s data) data schemas.

Definition _unmarshall_one (self : Composed) (data : pydict) (partial : bool)
    : result (pydict * errdict) :=
  schemas ← find_schemas self.(finder) data;
  aggregate self.(final_check) (λ s, load s data partial) data schemas.

(** ** The self-merge rule *)

(** [errors.get("_schema") or []] *)
Definition schema_messages (errors : errdict) : list string :=
  default [] (errors !! "_schema").

Definition self_and_others : string :=
  "satisfied both of self and others, not only one".

(** [self_errors] is [None] when the schema's own pass raised no
    [ValidationError]. *)
Definition _merge_errors_one_for_include_self (errors : errdict)
    (self_errors : option errdict) : result errdict :=
  match self_errors with
  | Some self_errors =>
      if negb (forallb is_not_matched (schema_messages errors))
      then Ok (update errors self_errors)
      else Ok errors
  | None =>
      if decide (errors = ∅) then Ok (<["_schema" := [self_and_others] ]> errors)
      else if forallb is_not_matched (schema_messages errors) then
        match errors !! "_schema" with
        | Some _ => Ok (delete "_schema" errors)
        | None => Raise (KeyError (VStr "_schema"))
        end
      else Ok errors
  end.

(** ** Notions the properties are stated with *)

(** Every required field name of [s] is a key of the payload. *)
Definition required_subset (data : pydict) (s : Schema) : Prop :=
  Forall (λ k, k ∈ dom data) (required_names s).

#[export] Instance required_subset_dec data s : Decision (required_subset data s).
Proof. unfold required_subset. apply _. Defined.

(** The distinct elements of a list, each at its first occurrence. *)
Fixpoint first_occurrences `{EqDecision A} (l : list A) : list A :=
  match l with
  | [] => []
  | x :: l' => x :: filter (λ y, y ≠ x) (first_occurrences l')
  end.

(** The last-declared variant whose signature is [sig]. *)
Definition last_with (ss : list Schema) (sig : list string) : option Schema :=
  last (filter (λ s, signature s = sig) ss).

(** One variant per distinct signature: the last declared with it, in the
    order in which the signatures first occur. *)
Definition kept_variants (ss : list Schema) : list Schema :=
  omap (last_with ss) (first_occurrences (signature <$> ss)).

(** The candidates that passed: those whose call returned no error. *)
Definition succeeded (call : Schema → pydict * errdict) (schemas : list Schema)
    : list Schema :=
  filter (λ s, (call s).2 = ∅) schemas.

(** What the error mapping of a batch holds at index [j] when [outs] are
    the outcomes of its items: the item's errors, unless they are empty. *)
Definition item_error {R} (outs : list (R * errdict)) (j : nat) : option errdict :=
  match outs !! j with
  | Some (_, err) => if decide (err = ∅) then None else Some err
  | None => None
  end.

(** The variant a discriminator value selects: by class name, or through
    the explicit mapping and then by class; among equal keys the last
    entry counts. *)
Definition variant_for (ss : list Schema) (d : Discriminator) (v : string)
    : option Schema :=
  match mapping d with
  | None => last (filter (λ s, cls_name s = v) ss)
  | Some items =>
      c ← snd <$> last (filter (λ it, it.1 = v) items);
      last (filter (λ s, cls s = c) ss)
  end.

(** ** Concrete schemas *)

Module Examples.

Definition missing : string := "Missing data for required field.".

(** A stand-in for marshmallow's own pass: the payload is returned as it
    is, with an error for each required key it lacks. *)
Definition check (req : list string) (d : pydict) : pydict * errdict :=
  (d, list_to_map ((λ k, (k, [missing])) <$> filter (λ k, d !! k = None) req)).

Definition variant (c : nat) (name : string) (req opt : list string) : Schema :=
  {| cls := c;
     cls_name := name;
     fields := ((λ k, (k, {| required := true |})) <$> req)
               ++ ((λ k, (k, {| required := false |})) <$> opt);
     dump := check req;
     load := λ d _, check req d |}.

Definition A : Schema := variant 0 "A" ["x"] [].
Definition B : Schema := variant 1 "B" ["y"] ["z"].

(** Same required fields as [A], one more optional field. *)
Definition A2 : Schema := variant 2 "A2" ["x"] ["w"].

(** No required field at all. *)
Definition Open1 : Schema := variant 3 "Open1" [] ["p"].
Definition Open2 : Schema := variant 4 "Open2" [] ["q"].

Definition Cat : Schema := variant 5 "Cat" ["type"] ["name"].
Definition Dog : Schema := variant 6 "Dog" ["type"] ["bark"].

Definition finder_of (ss : list Schema) : SchemaFinder :=
  {| schemas := ss; discriminator_name := None; discriminator_mapping := None |}.

Definition by_type : Discriminator := {| fieldname := "type"; mapping := None |}.

(** The finder [SchemaFinder([Cat(), Dog()], {"fieldname": "type"})]. *)
Definition pets : SchemaFinder :=
  {| schemas := [Cat; Dog];
     discriminator_name := Some "type";
     discriminator_mapping := Some (dict_of cls_name [Cat; Dog]) |}.

Definition a_cat : pydict := {[ "type" := VStr "Cat" ]}.
Definition no_type : pydict := {[ "name" := VStr "Tom" ]}.
Definition type_type : pydict := {[ "type" := VStr "type" ]}.
Definition a_fish : pydict := {[ "type" := VStr "Fish" ]}.

Definition x1 : pydict := {[ "x" := VInt 1 ]}.
Definition x1y2 : pydict := <[ "y" := VInt 2 ]> x1.
Definition z3 : pydict := {[ "z" := VInt 3 ]}.

Definition oneof_AB (with_self : bool) : OneOfSchema.t :=
  {| OneOfSchema.schemas := [A; B]; OneOfSchema.include_self := with_self |}.

Definition anyof_AB : AnyOfSchema.t := {| AnyOfSchema.schemas := [A; B] |}.

(** The marshaller / unmarshaller of a oneOf schema over [A] and [B]
    without discriminator and without [self]. *)
Definition composed_AB : Composed :=
  {| finder := finder_of [A; B];
     final_check := OneOfSchema.final_check (oneof_AB false);
     include_self := false |}.

Definition batch : list pydict := [x1; z3; x1y2].

Definition batch_outcomes : list (pydict * errdict) :=
  [ (x1, ∅);
    (z3, {[ "_schema" := [not_matched_message ["A"; "B"]] ]});
    (x1y2, {[ "_schema" := [satisfied_message ["A"; "B"]] ]}) ].

Definition not_matched_A_self : errdict :=
  {[ "_schema" := [not_matched_message ["A"; "self"]] ]}.

Definition satisfied_A_B : errdict :=
  {[ "_schema" := [satisfied_message ["A"; "B"]] ]}.

Definition name_missing : errdict := {[ "name" := [missing] ]}.

End Examples.

(** ** The [self] marker and [OneOfSchema.__init__] *)

(** An entry of [schema_classes]: a schema class, given by the instance it
    builds, or a string such as the marker ["self"]. *)
Inductive class_entry : Type :=
  | ClassOf (s : Schema)
  | Str (name : string).

(** The loop of [_detect_include_self] with its two variables. *)
Fixpoint detect_from (schema_classes : list class_entry) (include_self : bool)
    (new_schema_classes : list class_entry) : list class_entry * bool :=
  match schema_classes with
  | [] => (new_schema_classes, include_self)
  | ClassOf s :: rest =>
      detect_from rest include_self (new_schema_classes ++ [ClassOf s])
  | Str name :: rest =>
      if decide (name = "self") then detect_from rest true new_schema_classes
      else detect_from rest include_self (new_schema_classes ++ [Str name])
  end.

Definition _detect_include_self (schema_classes : list class_entry)
    : list class_entry * bool :=
  detect_from schema_classes false [].

(** The attributes [OneOfSchema.__init__] reads and writes: the class
    attributes [schema_classes] and [include_self] (both [None] unless the
    subclass sets them) and the options taken from [Meta]. *)
Record oneof_class := {
  schema_classes : option (list class_entry);
  class_include_self : option bool;
  opts_schema_classes : list class_entry;
  opts_discriminator : option Discriminator;
}.

(** Calling an entry to build the schema instance, as the list
    comprehension of [__init__] does; a string is not callable. *)
Definition instantiate (c : class_entry) : result Schema :=
  match c with
  | ClassOf s => Ok s
  | Str _ => Raise TypeError
  end.

Fixpoint instantiate_all (cs : list class_entry) : result (list Schema) :=
  match cs with
  | [] => Ok []
  | c :: cs' => s ← instantiate c; ss ← instantiate_all cs'; Ok (s :: ss)
  end.

(** [OneOfSchema.__init__]: the class attributes after the call and what
    the marshaller and the unmarshaller of the new instance hold. Iterating
    over [None] is a [TypeError]. *)
Definition OneOfSchema_init (k : oneof_class) : result (oneof_class * Composed) :=
  '(k, flag) ←
    match class_include_self k with
    | None =>
        match schema_classes k with
        | None => Raise TypeError
        | Some l =>
            let '(l', b) := _detect_include_self l in
            Ok ({| schema_classes := Some l';
                   class_include_self := Some b;
                   opts_schema_classes := opts_schema_classes k;
                   opts_discriminator := opts_discriminator k |}, b)
        end
    | Some b => Ok (k, b)
    end;
  cs ←
    match opts_schema_classes k with
    | [] => match schema_classes k with
            | None => Raise TypeError
            | Some l => Ok l
            end
    | l => Ok l
    end;
  ss ← instantiate_all cs;
  finder ← SchemaFinder_init ss (opts_discriminator k);
  Ok (k, {| finder := finder;
            final_check :=
              OneOfSchema.final_check
                {| OneOfSchema.schemas := ss; OneOfSchema.include_self := flag |};
            include_self := flag |}).

(** ** [marshall] and [unmarshall] *)

(** What a marshaller call ends in: the value it returns, or a
    [ValidationError] carrying errors and data. The schema's own
    [_marshaller] / [_unmarshaller] is a function to this type: for a
    [ValidationError] the code reads its [errors] attribute and
    [err.data]. *)
Inductive validated (V E : Type) : Type :=
  | Valid (value : V)
  | ValidationError (errors : E) (data : V).
Arguments Valid {V E} value.
Arguments ValidationError {V E} errors data.

(** [try: result = ... except ValidationError: ...]: [result] (below
    [res]) and [self_errors]. *)
Definition own_pass {V E} (r : validated V E) : V * option E :=
  match r with
  | Valid res => (res, None)
  | ValidationError errors data => (data, Some errors)
  end.

(** [marshall] with [many=False]. *)
Definition marshall (self : Composed) (_marshaller : pydict → validated pydict errdict)
    (obj : pydict) : result (validated pydict errdict) :=
  let '(res, self_errors) := own_pass (_marshaller obj) in
  '(d, errors) ← _marshall_one self obj;
  let d := update d res in
  errors ←
    (if negb self.(include_self)
     then Ok (match self_errors with
              | Some self_errors => update errors self_errors
              | None => errors
              end)
     else _merge_errors_one_for_include_self errors self_errors);
  if decide (errors = ∅) then Ok (Valid d) else Ok (ValidationError errors d).

(** [unmarshall] with [many=False]: the value returned and [self.errors]. *)
Definition unmarshall (self : Composed)
    (_unmarshaller : pydict → bool → validated pydict errdict)
    (data : pydict) (partial : bool) : result (pydict * errdict) :=
  let '(res, self_errors) := own_pass (_unmarshaller data partial) in
  '(d, errors) ← _unmarshall_one self data partial;
  let d := update d res in
  errors ←
    (if negb self.(include_self)
     then Ok (match self_errors with
              | Some self_errors => update errors self_errors
              | None => errors
              end)
     else _merge_errors_one_for_include_self errors self_errors);
  Ok (d, errors).

(** [for i in range(len(result)): d[i].update(result[i])] *)
Fixpoint update_each (d res : list pydict) {struct res} : result (list pydict) :=
  match res, d with
  | [], _ => Ok d
  | r :: res', di :: d' => d'' ← update_each d' res'; Ok (update di r :: d'')
  | _ :: _, [] => Raise IndexError
  end.

(** The loop of [_merge_errors_for_include_self] with [many=True], over
    the indices [range(size)]. Errors of a batch are keyed by item index,
    those of the own pass too ([index_errors], marshmallow's default). *)
Fixpoint merge_indices (indices : list nat) (errors : gmap nat errdict)
    (self_errors : option (gmap nat errdict)) : result (gmap nat errdict) :=
  match indices with
  | [] => Ok errors
  | i :: indices' =>
      match errors !! i with
      | Some e =>
          e' ← _merge_errors_one_for_include_self e
                 (match self_errors with
                  | None => None
                  | Some self_errors => self_errors !! i
                  end);
          merge_indices indices' (<[i := e']> errors) self_errors
      | None => merge_indices indices' errors self_errors
      end
  end.

(** [_merge_errors_for_include_self] with [many=True]; with [many=False]
    it is [_merge_errors_one_for_include_self]. *)
Definition _merge_errors_for_include_self (errors : gmap nat errdict)
    (self_errors : option (gmap nat errdict)) (size : nat)
    : result (gmap nat errdict) :=
  merge_indices (seq 0 size) errors self_errors.

(** [marshall] with [many=True]. *)
Definition marshall_many (self : Composed)
    (_marshaller : list pydict → validated (list pydict) (gmap nat errdict))
    (obj : list pydict) : result (validated (list pydict) (gmap nat errdict)) :=
  let '(res, self_errors) := own_pass (_marshaller obj) in
  '(d, errors) ← run_many obj (_marshall_one self);
  d ← update_each d res;
  errors ←
    (if negb self.(include_self)
     then Ok (match self_errors with
              | Some self_errors => self_errors ∪ errors
              | None => errors
              end)
     else _merge_errors_for_include_self errors self_errors (length res));
  if decide (errors = ∅) then Ok (Valid d) else Ok (ValidationError errors d).

(** [unmarshall] with [many=True]. *)
Definition unmarshall_many (self : Composed)
    (_unmarshaller : list pydict → bool → validated (list pydict) (gmap nat errdict))
    (data : list pydict) (partial : bool)
    : result (list pydict * gmap nat errdict) :=
  let '(res, self_errors) := own_pass (_unmarshaller data partial) in
  '(d, errors) ← run_many data (λ item, _unmarshall_one self item partial);
  d ← update_each d res;
  errors ←
    (if negb self.(include_self)
     then Ok (match self_errors with
              | Some self_errors => self_errors ∪ errors
              | None => errors
              end)
     else _merge_errors_for_include_self errors self_errors (length res));
  Ok (d, errors).

(** ** Notions for the further properties *)

(** [c == "self"] *)
Definition is_self (c : class_entry) : bool :=
  match c with
  | ClassOf _ => false
  | Str name => bool_decide (name = "self")
  end.

Definition is_str (c : class_entry) : bool :=
  match c with
  | ClassOf _ => false
  | Str _ => true
  end.

(** The schema classes among the entries, as the instances they build. *)
Definition classes_of (l : list class_entry) : list Schema :=
  omap (λ c, match c with ClassOf s => Some s | Str _ => None end) l.

(** Whether a marshaller call returned without [ValidationError]. *)
Definition is_valid {V E} (r : validated V E) : bool :=
  match r with
  | Valid _ => true
  | ValidationError _ _ => false
  end.

(** The value a marshaller call returns or attaches to its error. *)
Definition carried {V E} (r : validated V E) : V :=
  match r with
  | Valid value => value
  | ValidationError _ data => data
  end.

(** [self_errors.get(i)], or [None] when [self_errors] is [None]. *)
Definition self_errors_at (self_errors : option (gmap nat errdict)) (i : nat)
    : option errdict :=
  match self_errors with
  | None => None
  | Some self_errors => self_errors !! i
  end.

Module MoreExamples.

(** [Cat] and [Dog] selected through an explicit mapping. *)
Definition by_kind : Discriminator :=
  {| fieldname := "kind"; mapping := Some [("cat", 5%nat); ("dog", 6%nat)] |}.

(** A mapping that names a class which is not among the schemas. *)
Definition by_kind_fish : Discriminator :=
  {| fieldname := "kind"; mapping := Some [("cat", 5%nat); ("fish", 9%nat)] |}.

(** The unmarshaller of a oneOf schema over [Cat] and [Dog] with the
    discriminator [type]. *)
Definition composed_pets : Composed :=
  {| finder := Examples.pets;
     final_check :=
       OneOfSchema.final_check
         {| OneOfSchema.schemas := [Examples.Cat; Examples.Dog];
            OneOfSchema.include_self := false |};
     include_self := false |}.

(** [schema_classes = (A, "self", B)] on a subclass of [OneOfSchema]. *)
Definition class_A_self_B : oneof_class :=
  {| schema_classes := Some [ClassOf Examples.A; Str "self"; ClassOf Examples.B];
     class_include_self := None;
     opts_schema_classes := [];
     opts_discriminator := None |}.

(** The same classes given through [Meta.schema_classes]. *)
Definition class_meta_self : oneof_class :=
  {| schema_classes := Some [];
     class_include_self := None;
     opts_schema_classes := [ClassOf Examples.A; Str "self"];
     opts_discriminator := None |}.

(** A oneOf schema over [A] and [B] that also counts itself. *)
Definition composed_AB_self : Composed :=
  {| finder := Examples.finder_of [Examples.A; Examples.B];
     final_check := OneOfSchema.final_check (Examples.oneof_AB true);
     include_self := true |}.

(** A variant that returns the same value and errors whatever it is
    given. *)
Definition fixed (c : nat) (name : string) (value : pydict) (errors : errdict)
    : Schema :=
  {| cls := c;
     cls_name := name;
     fields := [];
     dump := λ _, (value, errors);
     load := λ _ _, (value, errors) |}.

Definition k_invalid : errdict := {[ "k" := ["Not a valid integer."] ]}.

(** Two variants that fail and two that succeed, each pair sharing the
    key [k]. *)
Definition FailL : Schema :=
  fixed 10 "FailL" (<["a" := VInt 1]> {[ "k" := VInt 1 ]}) k_invalid.
Definition FailR : Schema :=
  fixed 11 "FailR" (<["b" := VInt 2]> {[ "k" := VInt 2 ]}) k_invalid.
Definition OkL : Schema :=
  fixed 12 "OkL" (<["a" := VInt 1]> {[ "k" := VInt 1 ]}) ∅.
Definition OkR : Schema :=
  fixed 13 "OkR" (<["b" := VInt 2]> {[ "k" := VInt 2 ]}) ∅.

(** The keys of both values, [k] from the later one. *)
Definition both_values : pydict :=
  <["a" := VInt 1]> (<["b" := VInt 2]> {[ "k" := VInt 2 ]}).

(** Requires [x] and accepts only an integer [x]. *)
Definition AInt : Schema :=
  {| cls := 7;
     cls_name := "AInt";
     fields := [("x", {| required := true |})];
     dump := λ d, (d, match d !! "x" with
                      | Some (VInt _) => ∅
                      | _ => {[ "x" := ["Not a valid integer."] ]}
                      end);
     load := λ d _, (d, match d !! "x" with
                        | Some (VInt _) => ∅
                        | _ => {[ "x" := ["Not a valid integer."] ]}
                        end) |}.

Definition x_text : pydict := {[ "x" := VStr "one" ]}.

(** The marshaller of an anyOf schema over [AInt] and [B]. *)
Definition composed_anyof : Composed :=
  {| finder := Examples.finder_of [AInt; Examples.B];
     final_check :=
       AnyOfSchema.final_check {| AnyOfSchema.schemas := [AInt; Examples.B] |};
     include_self := false |}.

(** An own pass that accepts everything and returns its input. *)
Definition accept : pydict → validated pydict errdict := Valid.
Definition accept_many : list pydict → validated (list pydict) (gmap nat errdict) :=
  Valid.

(** An own pass that rejects everything for a missing [name]. *)
Definition reject : pydict → validated pydict errdict :=
  λ obj, ValidationError Examples.name_missing obj.

End MoreExamples.

(** * Properties *)

(** ** Dictionaries *)

Lemma update_lookup {V} (d other : gmap string V) (k : string) :
  update d other !! k = match other !! k with Some v => Some v | None => d !! k end.
Proof.
  unfold update. rewrite lookup_union.
  destruct (other !! k), (d !! k); reflexivity.
Qed.

Lemma update_all_snoc {V} (d : gmap string V) xs x :
  update_all d (xs ++ [x]) = update (update_all d xs) x.
Proof. unfold update_all. by rewrite foldl_app. Qed.

Section od_set.
Context {K V : Type} `{EqDecision K}.
Implicit Types (d : list (K * V)) (k : K) (v : V).

Lemma od_set_keys d k v :
  (od_set d k v).*1 = if decide (k ∈ d.*1) then d.*1 else d.*1 ++ [k].
Proof.
  induction d as [|[k0 v0] d IH]; [done|].
  cbn [od_set]. destruct (decide (k = k0)) as [->|Hne]; rewrite !fmap_cons.
  - cbn [fst]. by rewrite decide_True by (apply elem_of_cons; by left).
  - rewrite IH. cbn [fst]. destruct (decide (k ∈ d.*1)) as [Hin|Hin].
    + by rewrite decide_True by (apply elem_of_cons; by right).
    + rewrite decide_False; [done|].
      intros [?|?]%elem_of_cons; done.
Qed.

Lemma od_set_elem_of d k v k' v' :
  NoDup d.*1 → (k', v') ∈ od_set d k v →
  (k' = k ∧ v' = v) ∨ (k' ≠ k ∧ (k', v') ∈ d).
Proof.
  induction d as [|[k0 v0] d IH]; simpl; intros Hnd Hin.
  - apply list_elem_of_singleton in Hin. left. by simplify_eq.
  - apply NoDup_cons in Hnd as [Hk0 Hnd].
    destruct (decide (k = k0)) as [->|Hne].
    + apply elem_of_cons in Hin as [Heq|Hin]; [left; by simplify_eq|].
      right. split; [|by apply elem_of_cons; right].
      intros ->. apply Hk0. apply list_elem_of_fmap. by exists (k0, v').
    + apply elem_of_cons in Hin as [Heq|Hin].
      * right. simplify_eq. split; [done|by apply elem_of_cons; left].
      * destruct (IH Hnd Hin) as [?|[? ?]]; [by left|].
        right. split; [done|by apply elem_of_cons; right].
Qed.
End od_set.

Section first_occurrences.
Context `{EqDecision A}.
Implicit Types (l : list A) (x : A).

Lemma elem_of_first_occurrences l x : x ∈ first_occurrences l ↔ x ∈ l.
Proof.
  induction l as [|a l IH]; simpl; [done|].
  rewrite !elem_of_cons, list_elem_of_filter, IH.
  destruct (decide (x = a)); tauto.
Qed.

Lemma NoDup_first_occurrences l : NoDup (first_occurrences l).
Proof.
  induction l as [|a l IH]; simpl; [constructor|].
  apply NoDup_cons. split; [|by apply NoDup_filter].
  rewrite list_elem_of_filter. intros [Hne _]. by apply Hne.
Qed.

Lemma first_occurrences_snoc l x :
  first_occurrences (l ++ [x])
  = if decide (x ∈ l) then first_occurrences l else first_occurrences l ++ [x].
Proof.
  induction l as [|a l IH]; [done|].
  rewrite <-app_comm_cons. cbn [first_occurrences]. rewrite IH.
  destruct (decide (x ∈ l)) as [Hin|Hin].
  - by rewrite decide_True by (apply elem_of_cons; by right).
  - rewrite filter_app, filter_cons, filter_nil.
    destruct (decide (x = a)) as [->|Hne].
    + rewrite (decide_True (P := a ∈ a :: l)) by (apply elem_of_cons; by left).
      rewrite (decide_False (P := a ≠ a)) by (intros ?; done).
      by rewrite app_nil_r.
    + rewrite (decide_False (P := x ∈ a :: l)).
      * by rewrite (decide_True (P := x ≠ a)) by done.
      * intros [?|?]%elem_of_cons; done.
Qed.

Lemma first_occurrences_NoDup l : NoDup l → first_occurrences l = l.
Proof.
  induction 1 as [|a l Hin Hnd IH]; simpl; [done|].
  rewrite IH. f_equal. clear IH Hnd.
  induction l as [|b l IH]; [done|].
  rewrite filter_cons. rewrite decide_True by set_solver.
  f_equal. apply IH. set_solver.
Qed.
End first_occurrences.

(** ** Structural matching: [signature_mapping] and [find_matched_schemas] *)

Lemma all_in_required_subset (data : pydict) (s : Schema) :
  all_in data (signature s) = true ↔ required_subset data s.
Proof.
  unfold all_in, required_subset, signature.
  rewrite forallb_forall, Forall_forall.
  split; intros H k Hk.
  - apply elem_of_dom. eapply bool_decide_eq_true, H.
    apply list_elem_of_In. by rewrite merge_sort_Permutation.
  - apply bool_decide_eq_true, elem_of_dom, H.
    apply list_elem_of_In in Hk. by rewrite merge_sort_Permutation in Hk.
Qed.

Lemma last_with_snoc (ss : list Schema) (s : Schema) (sig : list string) :
  last_with (ss ++ [s]) sig
  = if decide (signature s = sig) then Some s else last_with ss sig.
Proof.
  unfold last_with. rewrite filter_app, filter_cons, filter_nil.
  case_decide; [by rewrite last_snoc|by rewrite app_nil_r].
Qed.

Lemma last_with_signature (ss : list Schema) (sig : list string) (s : Schema) :
  last_with ss sig = Some s → s ∈ ss ∧ signature s = sig.
Proof.
  unfold last_with. intros H%last_Some_elem_of.
  apply list_elem_of_filter in H. tauto.
Qed.

Lemma signature_mapping_snoc (f : SchemaFinder) (ss : list Schema) (s : Schema) :
  schemas f = ss ++ [s] →
  signature_mapping f
  = od_set (foldl (λ d s, od_set d (signature s) s) [] ss) (signature s) s.
Proof. unfold signature_mapping. intros ->. by rewrite foldl_app. Qed.

(** The keys of the ordered dictionary: the distinct signatures, each where
    it first occurs. *)
Lemma signature_mapping_keys (f : SchemaFinder) :
  (signature_mapping f).*1 = first_occurrences (signature <$> schemas f).
Proof.
  unfold signature_mapping. induction (schemas f) as [|s ss IH] using rev_ind; [done|].
  rewrite foldl_app, fmap_app. cbn [foldl fmap list_fmap].
  rewrite od_set_keys, first_occurrences_snoc, IH.
  destruct (decide (signature s ∈ signature <$> ss)) as [Hin|Hin].
  - by rewrite decide_True by (by apply elem_of_first_occurrences).
  - by rewrite decide_False by (by rewrite elem_of_first_occurrences).
Qed.

(** The value kept under a signature: the last variant declared with it. *)
Lemma signature_mapping_values (f : SchemaFinder) (sig : list string) (s : Schema) :
  (sig, s) ∈ signature_mapping f → last_with (schemas f) sig = Some s.
Proof.
  destruct f as [ss dn dm]. cbn [schemas]. revert sig s.
  induction ss as [|s0 ss IH] using rev_ind; intros sig s.
  - by intros ?%elem_of_nil.
  - erewrite signature_mapping_snoc by done. intros Hin.
    apply od_set_elem_of in Hin.
    + rewrite last_with_snoc. destruct Hin as [[-> ->]|[Hne Hin]].
      * by rewrite decide_True.
      * rewrite decide_False by done. by apply IH.
    + pose proof (signature_mapping_keys {| schemas := ss; discriminator_name := dn;
                                            discriminator_mapping := dm |}) as Hk.
      unfold signature_mapping in Hk. cbn [schemas] in Hk. rewrite Hk.
      apply NoDup_first_occurrences.
Qed.

Lemma omap_fst_snd {K V} (g : K → option V) (l : list (K * V)) :
  (∀ k v, (k, v) ∈ l → g k = Some v) → omap g l.*1 = l.*2.
Proof.
  induction l as [|[k v] l IH]; intros H; [done|].
  cbn. rewrite (H k v) by (apply elem_of_cons; by left).
  f_equal. apply IH. intros k' v' Hin. apply H, elem_of_cons. by right.
Qed.

Lemma signature_mapping_kept (f : SchemaFinder) :
  (signature_mapping f).*2 = kept_variants (schemas f).
Proof.
  unfold kept_variants. rewrite <-signature_mapping_keys.
  symmetry. apply omap_fst_snd. apply signature_mapping_values.
Qed.

Lemma filter_snd_fmap {K V} (P : K * V → Prop) (Q : V → Prop)
    `{∀ x, Decision (P x)} `{∀ v, Decision (Q v)} (l : list (K * V)) :
  (∀ x, x ∈ l → P x ↔ Q x.2) → (filter P l).*2 = filter Q l.*2.
Proof.
  induction l as [|x l IH]; intros HPQ; [done|].
  rewrite fmap_cons, !filter_cons.
  assert (P x ↔ Q x.2) as Hx by (apply HPQ, elem_of_cons; by left).
  assert ((filter P l).*2 = filter Q l.*2) as IH'.
  { apply IH. intros y Hin. apply HPQ, elem_of_cons. by right. }
  destruct (decide (P x)) as [HP|HP].
  - rewrite decide_True by tauto. by rewrite fmap_cons, IH'.
  - by rewrite decide_False by tauto.
Qed.

Lemma find_matched_schemas_kept (f : SchemaFinder) (data : pydict) :
  discriminator_name f = None →
  find_matched_schemas f data
  = Ok (filter (required_subset data) (kept_variants (schemas f))).
Proof.
  intros Hd. unfold find_matched_schemas. rewrite Hd. f_equal.
  rewrite <-signature_mapping_kept.
  apply filter_snd_fmap.
  intros [sig s] Hin%signature_mapping_values%last_with_signature.
  destruct Hin as [_ <-]. apply all_in_required_subset.
Qed.

Lemma filter_same_key {A B} `{EqDecision B} (key : A → B) (l : list A) (x : A) :
  NoDup (key <$> l) → x ∈ l → filter (λ y, key y = key x) l = [x].
Proof.
  induction l as [|a l IH]; intros Hnd Hin; [by apply elem_of_nil in Hin|].
  rewrite fmap_cons in Hnd. apply NoDup_cons in Hnd as [Ha Hnd].
  rewrite filter_cons. apply elem_of_cons in Hin as [->|Hin].
  - rewrite decide_True by done. f_equal.
    clear IH Hnd. induction l as [|b l IH]; [done|].
    rewrite filter_cons, decide_False.
    + apply IH. intros Hin. apply Ha. rewrite fmap_cons. apply elem_of_cons. by right.
    + intros Hb. apply Ha. rewrite fmap_cons, Hb. apply elem_of_cons. by left.
  - rewrite decide_False; [by apply IH|].
    intros Heq. apply Ha. rewrite Heq. by apply list_elem_of_fmap_2.
Qed.

Lemma omap_fmap_id {A B} (g : B → option A) (key : A → B) (l : list A) :
  (∀ x, x ∈ l → g (key x) = Some x) → omap g (key <$> l) = l.
Proof.
  induction l as [|a l IH]; intros H; [done|].
  cbn. rewrite H by (apply elem_of_cons; by left).
  f_equal. apply IH. intros x Hx. apply H, elem_of_cons. by right.
Qed.

(** With pairwise distinct signatures no variant is dropped. *)
Lemma kept_variants_NoDup (ss : list Schema) :
  NoDup (signature <$> ss) → kept_variants ss = ss.
Proof.
  intros Hnd. unfold kept_variants. rewrite first_occurrences_NoDup by done.
  apply omap_fmap_id. intros s Hs. unfold last_with.
  by rewrite (filter_same_key signature ss s).
Qed.

(** C1 (amended): without a discriminator, and when the required-field
    signatures of the variants are pairwise distinct, [find_matched_schemas]
    returns exactly the variants whose required fields are all keys of the
    payload, in declared order; a variant with no required field then
    matches every payload. *)
Theorem find_matched_schemas_structural (f : SchemaFinder) (data : pydict) :
  discriminator_name f = None →
  NoDup (signature <$> schemas f) →
  ∃ got : list Schema,
    find_matched_schemas f data = Ok got
    ∧ got = filter (required_subset data) (schemas f)
    ∧ (∀ s, s ∈ got ↔ s ∈ schemas f ∧ ∀ k, k ∈ required_names s → is_Some (data !! k))
    ∧ (∀ s, s ∈ schemas f → required_names s = [] → s ∈ got).
Proof.
  intros Hd Hnd. eexists. split; [by apply find_matched_schemas_kept|].
  rewrite kept_variants_NoDup by done. split; [done|]. split.
  - intros s. rewrite list_elem_of_filter. unfold required_subset.
    rewrite Forall_forall. setoid_rewrite elem_of_dom. tauto.
  - intros s Hs Hreq. apply list_elem_of_filter. split; [|done].
    unfold required_subset. rewrite Hreq. constructor.
Qed.

Lemma find_matched_schemas_structural_witness :
  ∃ got : list Schema,
    find_matched_schemas (Examples.finder_of [Examples.A; Examples.B; Examples.Open1])
      Examples.x1 = Ok got
    ∧ got = [Examples.A; Examples.Open1].
Proof.
  destruct (find_matched_schemas_structural
              (Examples.finder_of [Examples.A; Examples.B; Examples.Open1])
              Examples.x1 eq_refl) as (got & Hgot & Heq & _).
  - apply (bool_decide_unpack (NoDup _)). vm_compute. exact I.
  - exists got. split; [exact Hgot|]. rewrite Heq. vm_compute. reflexivity.
Defined.

(** C1 (as stated) fails: [A] and [A2] have the same required fields, both
    are satisfied by the payload, and only [A2] is returned; [Open1] has no
    required field and is not returned once [Open2] follows it. *)
Lemma find_matched_schemas_identical_signatures :
  discriminator_name (Examples.finder_of [Examples.A; Examples.A2]) = None
  ∧ filter (required_subset Examples.x1) [Examples.A; Examples.A2]
    = [Examples.A; Examples.A2]
  ∧ find_matched_schemas (Examples.finder_of [Examples.A; Examples.A2]) Examples.x1
    = Ok [Examples.A2]
  ∧ find_matched_schemas (Examples.finder_of [Examples.A; Examples.A2]) Examples.x1
    ≠ Ok (filter (required_subset Examples.x1) [Examples.A; Examples.A2])
  ∧ required_names Examples.Open1 = []
  ∧ find_matched_schemas (Examples.finder_of [Examples.Open1; Examples.Open2]) Examples.z3
    = Ok [Examples.Open2].
Proof.
  split; [reflexivity|]. split; [vm_compute; reflexivity|].
  split; [vm_compute; reflexivity|]. split; [|split; vm_compute; reflexivity].
  intros H.
  apply (f_equal (λ r, match r with Ok l => length l | Raise _ => 0 end)) in H.
  vm_compute in H. discriminate H.
Qed.

(** ** Lookup by discriminator *)

Lemma dict_of_lookup `{Countable K} {A} (key : A → K) (xs : list A) (k : K) :
  dict_of key xs !! k = last (filter (λ x, key x = k) xs).
Proof.
  unfold dict_of. induction xs as [|x xs IH] using rev_ind; [done|].
  rewrite foldl_app, filter_app, filter_cons, filter_nil. cbn [foldl].
  rewrite lookup_insert. case_decide.
  - by rewrite last_snoc.
  - by rewrite app_nil_r.
Qed.

Lemma named_mapping_lookup (m : gmap nat Schema) (items : list (string * nat))
    (acc r : gmap string Schema) (v : string) :
  named_mapping m items acc = Ok r →
  r !! v = match last (filter (λ it, it.1 = v) items) with
           | Some it => m !! it.2
           | None => acc !! v
           end.
Proof.
  revert acc. induction items as [|[name c] items IH]; intros acc; cbn [named_mapping].
  - by intros [= ->].
  - destruct (m !! c) as [s|] eqn:Hc; [|done]. intros Hr%IH. rewrite Hr.
    rewrite filter_cons. cbn [fst]. destruct (decide (name = v)) as [->|Hne].
    + rewrite last_cons. destruct (last _); [done|].
      by rewrite lookup_insert_eq.
    + destruct (last _); [done|]. by rewrite lookup_insert_ne.
Qed.

(** The mapping built by [__init__] sends a value to [variant_for]. *)
Lemma SchemaFinder_init_discriminator (ss : list Schema) (d : Discriminator)
    (f : SchemaFinder) :
  SchemaFinder_init ss (Some d) = Ok f →
  schemas f = ss
  ∧ discriminator_name f = Some (fieldname d)
  ∧ ∃ m, discriminator_mapping f = Some m ∧ ∀ v, m !! v = variant_for ss d v.
Proof.
  unfold SchemaFinder_init, variant_for. destruct (mapping d) as [items|].
  - destruct (named_mapping _ items ∅) as [m|e] eqn:Hm; [|done].
    intros [= <-]. do 2 (split; [done|]). exists m. split; [done|]. intros v.
    rewrite (named_mapping_lookup _ _ _ _ v Hm).
    destruct (last _) as [[name c]|]; [|done]. apply dict_of_lookup.
  - intros [= <-]. do 2 (split; [done|]). eexists. split; [done|].
    intros v. apply dict_of_lookup.
Qed.

(** C3 (amended): with a discriminator, both finders return exactly one
    candidate when the field is present and its value is a string that
    selects a variant. Otherwise the lookup raises Python's builtin
    [KeyError]: with the field name when the field is absent, with the
    value when it is present but selects no variant (a list or dictionary
    value raises [TypeError]). No separate error kinds exist for the two
    failures. *)
Theorem find_schemas_by_discriminator (ss : list Schema) (d : Discriminator)
    (f : SchemaFinder) (data : pydict) :
  SchemaFinder_init ss (Some d) = Ok f →
  find_schemas f data = find_matched_schemas f data
  ∧ find_matched_schemas f data
    = match data !! fieldname d with
      | None => Raise (KeyError (VStr (fieldname d)))
      | Some (VStr v) =>
          match variant_for ss d v with
          | Some s => Ok [s]
          | None => Raise (KeyError (VStr v))
          end
      | Some (VList _) | Some (VDict _) => Raise TypeError
      | Some v => Raise (KeyError v)
      end.
Proof.
  intros (_ & Hname & m & Hm & Hlook)%SchemaFinder_init_discriminator.
  unfold find_schemas, find_matched_schemas, by_discriminator, getitem.
  rewrite Hname, Hm. split; [done|].
  destruct (data !! fieldname d) as [v|]; [|done].
  destruct v as [ |b|n|v|c|xs|kvs]; try done.
  cbn. rewrite Hlook. by destruct (variant_for ss d v).
Qed.

Lemma find_schemas_by_discriminator_witness :
  SchemaFinder_init [Examples.Cat; Examples.Dog] (Some Examples.by_type)
  = Ok Examples.pets
  ∧ find_matched_schemas Examples.pets Examples.a_cat = Ok [Examples.Cat].
Proof.
  split; [reflexivity|].
  destruct (find_schemas_by_discriminator [Examples.Cat; Examples.Dog]
              Examples.by_type Examples.pets Examples.a_cat eq_refl) as [_ H].
  rewrite H. vm_compute. reflexivity.
Defined.

(** C3 (as stated) fails: a payload without the discriminator field and a
    payload whose discriminator value selects no variant raise the very
    same exception, [KeyError('type')]; nothing observable in the outcome
    tells a missing discriminator from an unknown value. *)
Lemma discriminator_failures_coincide :
  SchemaFinder_init [Examples.Cat; Examples.Dog] (Some Examples.by_type)
  = Ok Examples.pets
  ∧ Examples.no_type !! "type" = None
  ∧ find_matched_schemas Examples.pets Examples.no_type
    = Raise (KeyError (VStr "type"))
  ∧ Examples.type_type !! "type" = Some (VStr "type")
  ∧ variant_for [Examples.Cat; Examples.Dog] Examples.by_type "type" = None
  ∧ find_matched_schemas Examples.pets Examples.type_type
    = Raise (KeyError (VStr "type"))
  ∧ ¬ ∃ missing_discriminator : result (list Schema) → bool,
        missing_discriminator (find_matched_schemas Examples.pets Examples.no_type)
        = true
        ∧ missing_discriminator (find_matched_schemas Examples.pets Examples.type_type)
          = false.
Proof.
  do 6 (split; [vm_compute; reflexivity|]).
  intros (kind & Hmissing & Hunknown).
  assert (find_matched_schemas Examples.pets Examples.no_type
          = find_matched_schemas Examples.pets Examples.type_type) as Heq
    by (vm_compute; reflexivity).
  rewrite Heq, Hunknown in Hmissing. discriminate Hmissing.
Qed.

(** ** The candidate loop *)

Lemma succeeded_cons (call : Schema → pydict * errdict) (s : Schema) (ss : list Schema) :
  succeeded call (s :: ss)
  = if decide ((call s).2 = ∅) then s :: succeeded call ss else succeeded call ss.
Proof. unfold succeeded. by rewrite filter_cons. Qed.

Lemma attempt_from (call : Schema → pydict * errdict) (ss : list Schema)
    (results : list pydict) (errors : list errdict) (compacted : list pydict) :
  attempt call ss results errors compacted
  = (results ++ ((λ s, (call s).1) <$> ss),
     errors ++ ((λ s, (call s).2) <$> ss),
     compacted ++ ((λ s, (call s).1) <$> succeeded call ss)).
Proof.
  revert results errors compacted.
  induction ss as [|s ss IH]; intros results errors compacted; cbn [attempt].
  - by rewrite !app_nil_r.
  - rewrite succeeded_cons. destruct (call s) as [r err] eqn:Hcall. rewrite IH.
    cbn [fst snd]. destruct (decide (err = ∅)).
    all: rewrite !fmap_cons, Hcall; cbn [fst snd]; rewrite <-!app_assoc.
    all: reflexivity.
Qed.

(** The three lists [final_check] receives. *)
Lemma attempt_all (call : Schema → pydict * errdict) (ss : list Schema) :
  attempt call ss [] [] []
  = ((λ s, (call s).1) <$> ss,
     (λ s, (call s).2) <$> ss,
     (λ s, (call s).1) <$> succeeded call ss).
Proof. by rewrite attempt_from. Qed.

Lemma satisfied_from_drop (call : Schema → pydict * errdict) (schemas rest : list Schema)
    (i : nat) (satisfied : list string) :
  drop i schemas = rest →
  OneOfSchema.satisfied_from schemas i ((λ s, (call s).2) <$> rest) satisfied
  = Ok (satisfied ++ (cls_name <$> succeeded call rest)).
Proof.
  revert i satisfied. induction rest as [|s rest IH]; intros i satisfied Hdrop.
  - cbn. by rewrite app_nil_r.
  - assert (schemas !! i = Some s) as Hi.
    { by rewrite <-(Nat.add_0_r i), <-lookup_drop, Hdrop. }
    assert (drop (S i) schemas = rest) as Hrest.
    { apply drop_S in Hi. rewrite Hdrop in Hi. by injection Hi. }
    rewrite fmap_cons, succeeded_cons. cbn [OneOfSchema.satisfied_from].
    destruct (decide ((call s).2 = ∅)).
    + rewrite Hi, (IH _ _ Hrest). by rewrite fmap_cons, <-app_assoc.
    + by rewrite (IH _ _ Hrest).
Qed.

(** Over the loop's own lists both policies always return: the
    [schemas[i]] of the oneOf policy stays in range. *)
Lemma aggregate_oneof_returns (self : OneOfSchema.t) (data : pydict)
    (call : Schema → pydict * errdict) (cands : list Schema) :
  ∃ out, aggregate (OneOfSchema.final_check self) call data cands = Ok out.
Proof.
  unfold aggregate. rewrite attempt_all.
  destruct (succeeded call cands) as [|s0 [|s1 rest]] eqn:Hs; cbn; eauto.
  rewrite (satisfied_from_drop call cands cands 0 []) by done. cbn. eauto.
Qed.

Lemma aggregate_anyof_returns (self : AnyOfSchema.t) (data : pydict)
    (call : Schema → pydict * errdict) (cands : list Schema) :
  ∃ out, aggregate (AnyOfSchema.final_check self) call data cands = Ok out.
Proof.
  unfold aggregate. rewrite attempt_all.
  destruct (succeeded call cands); cbn; eauto.
Qed.

Lemma update_all_lookup {V} (d : gmap string V) (xs : list (gmap string V)) (k : string) :
  update_all d xs !! k
  = match last (omap (λ x, x !! k) xs) with Some v => Some v | None => d !! k end.
Proof.
  induction xs as [|x xs IH] using rev_ind; [done|].
  rewrite update_all_snoc, update_lookup, omap_app. cbn [omap list_omap].
  destruct (x !! k) as [v|].
  - by rewrite last_snoc.
  - by rewrite app_nil_r.
Qed.

(** ** oneOf *)

(** C8: when exactly one candidate returned no error, [final_check] returns
    that candidate's value as it is, with an empty error mapping. *)
Theorem oneof_exactly_one (self : OneOfSchema.t) (data : pydict)
    (call : Schema → pydict * errdict) (cands : list Schema) (s : Schema) :
  succeeded call cands = [s] →
  aggregate (OneOfSchema.final_check self) call data cands = Ok ((call s).1, ∅).
Proof.
  intros Hs. unfold aggregate. by rewrite attempt_all, Hs.
Qed.

Lemma oneof_exactly_one_witness :
  aggregate (OneOfSchema.final_check (Examples.oneof_AB false))
    (λ s, dump s Examples.x1) Examples.x1 [Examples.A; Examples.B]
  = Ok (Examples.x1, ∅).
Proof.
  apply (oneof_exactly_one (Examples.oneof_AB false) Examples.x1
           (λ s, dump s Examples.x1) [Examples.A; Examples.B] Examples.A).
  vm_compute. reflexivity.
Defined.

(** C4: when two or more candidates returned no error, [final_check]
    returns the first successful value updated by each later successful
    value in order (for every key the last successful value holding it
    wins), together with the error mapping whose only key is [_schema],
    holding the single message that names the successful candidates in
    candidate order. *)
Theorem oneof_two_or_more (self : OneOfSchema.t) (data : pydict)
    (call : Schema → pydict * errdict) (cands : list Schema) :
  (2 ≤ length (succeeded call cands))%nat →
  ∃ (first : pydict) (later : list pydict),
    (λ s, (call s).1) <$> succeeded call cands = first :: later
    ∧ aggregate (OneOfSchema.final_check self) call data cands
      = Ok (update_all first later,
            {[ "_schema" :=
                 ["satisfied both of " +:+ repr_list (cls_name <$> succeeded call cands)
                  +:+ ", not only one"] ]})
    ∧ ∀ k, update_all first later !! k
           = match last (omap (λ r : pydict, r !! k) later) with
             | Some v => Some v
             | None => first !! k
             end.
Proof.
  intros Hlen. destruct (succeeded call cands) as [|s0 [|s1 rest]] eqn:Hs;
    [cbn in Hlen; lia..|].
  eexists _, _. split; [done|]. split; [|intros k; apply update_all_lookup].
  unfold aggregate. rewrite attempt_all, Hs.
  cbn [OneOfSchema.final_check fmap list_fmap].
  by rewrite (satisfied_from_drop call cands cands 0 []), Hs.
Qed.

Lemma oneof_two_or_more_witness :
  aggregate (OneOfSchema.final_check (Examples.oneof_AB false))
    (λ s, dump s Examples.x1y2) Examples.x1y2 [Examples.A; Examples.B]
  = Ok (Examples.x1y2,
        {[ "_schema" := ["satisfied both of ['A', 'B'], not only one"] ]}).
Proof.
  destruct (oneof_two_or_more (Examples.oneof_AB false) Examples.x1y2
              (λ s, dump s Examples.x1y2) [Examples.A; Examples.B])
    as (first & later & Hvalues & Hagg & _).
  - vm_compute. lia.
  - rewrite Hagg. vm_compute in Hvalues. injection Hvalues as <- <-.
    vm_compute. reflexivity.
Defined.

(** C5: when no candidate returned an empty error mapping, [final_check]
    returns the first result updated in order by every other result (for
    every key the last result holding it wins, and a key only the first
    result holds keeps its value), or the payload itself when there is no
    result, together with the [_schema] message that lists the names of
    all declared variants, followed by [self] exactly when [include_self]
    is set. *)
Theorem oneof_zero (self : OneOfSchema.t) (data : pydict)
    (call : Schema → pydict * errdict) (cands : list Schema) :
  succeeded call cands = [] →
  ∃ merged : pydict,
    aggregate (OneOfSchema.final_check self) call data cands
    = Ok (merged,
          {[ "_schema" :=
               ["not matched, any of "
                +:+ repr_list ((cls_name <$> OneOfSchema.schemas self)
                               ++ (if OneOfSchema.include_self self
                                   then ["self"] else []))] ]})
    ∧ merged = match cands with
               | [] => data
               | s0 :: rest => update_all (call s0).1 ((λ s, (call s).1) <$> rest)
               end
    ∧ ∀ k, merged !! k
           = match cands with
             | [] => data !! k
             | s0 :: rest =>
                 match last (omap (λ r : pydict, r !! k)
                               ((λ s, (call s).1) <$> rest)) with
                 | Some v => Some v
                 | None => (call s0).1 !! k
                 end
             end.
Proof.
  intros Hs. eexists. split; [|split].
  - unfold aggregate. rewrite attempt_all, Hs. reflexivity.
  - by destruct cands.
  - intros k. destruct cands as [|s0 rest]; [done|].
    cbn [fmap list_fmap merged_results]. apply update_all_lookup.
Qed.

Lemma oneof_zero_witness :
  aggregate (OneOfSchema.final_check (Examples.oneof_AB true))
    (λ s, dump s Examples.z3) Examples.z3 [Examples.A; Examples.B]
  = Ok (Examples.z3, {[ "_schema" := ["not matched, any of ['A', 'B', 'self']"] ]})
  ∧ aggregate (OneOfSchema.final_check (Examples.oneof_AB false))
      (λ s, dump s Examples.z3) Examples.z3 [MoreExamples.FailL; MoreExamples.FailR]
    = Ok (MoreExamples.both_values,
          {[ "_schema" := ["not matched, any of ['A', 'B']"] ]}).
Proof.
  split.
  - destruct (oneof_zero (Examples.oneof_AB true) Examples.z3
                (λ s, dump s Examples.z3) [Examples.A; Examples.B])
      as (merged & Hagg & -> & _).
    + vm_compute. reflexivity.
    + rewrite Hagg. vm_compute. reflexivity.
  - destruct (oneof_zero (Examples.oneof_AB false) Examples.z3
                (λ s, dump s Examples.z3) [MoreExamples.FailL; MoreExamples.FailR])
      as (merged & Hagg & -> & _).
    + vm_compute. reflexivity.
    + rewrite Hagg. vm_compute. reflexivity.
Defined.

(** ** anyOf *)

(** C7 (amended): under anyOf, when at least one candidate returned no
    error, [final_check] returns the first successful value updated in
    order by each later successful value (for every key the last
    successful value holding it wins), with an empty error mapping; when
    none did, it returns the same merged results as oneOf does (the first
    result updated by the others, or the payload when there is none) with
    the [_schema] message listing the name of every declared variant of
    the schema ([self.schemas]), whether or not it was among the
    candidates tried, and no [self] entry. *)
Theorem anyof_final_check (self : AnyOfSchema.t) (data : pydict)
    (call : Schema → pydict * errdict) (cands : list Schema) :
  (succeeded call cands ≠ [] →
   ∃ (first : pydict) (later : list pydict),
     (λ s, (call s).1) <$> succeeded call cands = first :: later
     ∧ aggregate (AnyOfSchema.final_check self) call data cands
       = Ok (update_all first later, ∅)
     ∧ ∀ k, update_all first later !! k
            = match last (omap (λ r : pydict, r !! k) later) with
              | Some v => Some v
              | None => first !! k
              end)
  ∧ (succeeded call cands = [] →
     ∃ merged : pydict,
       aggregate (AnyOfSchema.final_check self) call data cands
       = Ok (merged,
             {[ "_schema" :=
                  ["not matched, any of "
                   +:+ repr_list (cls_name <$> AnyOfSchema.schemas self)] ]})
       ∧ merged = match cands with
                  | [] => data
                  | s0 :: rest => update_all (call s0).1 ((λ s, (call s).1) <$> rest)
                  end
       ∧ (∀ k, merged !! k
               = match cands with
                 | [] => data !! k
                 | s0 :: rest =>
                     match last (omap (λ r : pydict, r !! k)
                                   ((λ s, (call s).1) <$> rest)) with
                     | Some v => Some v
                     | None => (call s0).1 !! k
                     end
                 end)
       ∧ ∀ one : OneOfSchema.t, ∃ errs : errdict,
           aggregate (OneOfSchema.final_check one) call data cands
           = Ok (merged, errs)).
Proof.
  split.
  - intros Hs. destruct (succeeded call cands) as [|s0 rest] eqn:Heq; [done|].
    eexists _, _. split; [done|]. split; [|intros k; apply update_all_lookup].
    unfold aggregate. by rewrite attempt_all, Heq.
  - intros Hs. eexists. split; [|split; [|split]].
    + unfold aggregate. rewrite attempt_all, Hs. reflexivity.
    + by destruct cands.
    + intros k. destruct cands as [|s0 rest]; [done|].
      cbn [fmap list_fmap merged_results]. apply update_all_lookup.
    + intros one. eexists. unfold aggregate. rewrite attempt_all, Hs. reflexivity.
Qed.

Lemma anyof_final_check_witness :
  aggregate (AnyOfSchema.final_check Examples.anyof_AB)
    (λ s, dump s Examples.z3) Examples.z3 [MoreExamples.OkL; MoreExamples.OkR]
  = Ok (MoreExamples.both_values, ∅)
  ∧ aggregate (AnyOfSchema.final_check Examples.anyof_AB)
      (λ s, dump s Examples.z3) Examples.z3 [MoreExamples.FailL; MoreExamples.FailR]
    = Ok (MoreExamples.both_values,
          {[ "_schema" := ["not matched, any of ['A', 'B']"] ]}).
Proof.
  split.
  - destruct (anyof_final_check Examples.anyof_AB Examples.z3
                (λ s, dump s Examples.z3) [MoreExamples.OkL; MoreExamples.OkR])
      as [Hsome _].
    destruct Hsome as (first & later & Hvalues & Hagg & _).
    + vm_compute. discriminate.
    + rewrite Hagg. vm_compute in Hvalues. injection Hvalues as <- <-.
      vm_compute. reflexivity.
  - destruct (anyof_final_check Examples.anyof_AB Examples.z3
                (λ s, dump s Examples.z3) [MoreExamples.FailL; MoreExamples.FailR])
      as [_ Hnone].
    destruct Hnone as (merged & Hagg & -> & _).
    + vm_compute. reflexivity.
    + rewrite Hagg. vm_compute. reflexivity.
Defined.

(** C7 (as stated) fails: on the dump side only [AInt] is a candidate for
    the payload (it lacks the [y] that [B] requires), [AInt] rejects it,
    and the message names [B] as well as [AInt]: it lists the declared
    variants, not the candidates. *)
Lemma anyof_message_lists_declared :
  find_matched_schemas (finder MoreExamples.composed_anyof) MoreExamples.x_text
  = Ok [MoreExamples.AInt]
  ∧ _marshall_one MoreExamples.composed_anyof MoreExamples.x_text
    = Ok (MoreExamples.x_text,
          {[ "_schema" := ["not matched, any of ['AInt', 'B']"] ]})
  ∧ _marshall_one MoreExamples.composed_anyof MoreExamples.x_text
    ≠ Ok (MoreExamples.x_text,
          {[ "_schema" :=
               ["not matched, any of "
                +:+ repr_list (cls_name <$> [MoreExamples.AInt])] ]}).
Proof.
  split; [vm_compute; reflexivity|]. split; [vm_compute; reflexivity|].
  intros H.
  apply (f_equal (λ r : result (pydict * errdict),
                    match r with
                    | Ok (_, e) => e !! "_schema"
                    | Raise _ => None
                    end)) in H.
  vm_compute in H. discriminate H.
Qed.

(** ** The self-merge rule *)

Lemma forallb_is_not_matched (msgs : list string) :
  forallb is_not_matched msgs = true ↔ Forall (λ m, is_not_matched m = true) msgs.
Proof. rewrite forallb_forall, Forall_forall. by setoid_rewrite list_elem_of_In. Qed.

Lemma forallb_is_not_matched_false (msgs : list string) :
  forallb is_not_matched msgs = false ↔ Exists (λ m, is_not_matched m = false) msgs.
Proof.
  induction msgs as [|m msgs IH]; cbn [forallb].
  - split; [done|]. by intros ?%Exists_nil.
  - rewrite Exists_cons, <-IH. destruct (is_not_matched m); cbn.
    + split; [by right|]. by intros [?|?].
    + split; [by left|done].
Qed.




(** C6: when the base schema's own pass succeeded ([self_errors] is
    [None]): an aggregator without errors becomes the double-match error
    under [_schema]; aggregator errors whose [_schema] messages all start
    with "not matched, any of" lose their [_schema] key, which leaves no
    error at all when that key was the only one; any other aggregator error
    is returned unchanged. *)
Theorem merge_self_succeeded (errors : errdict) :
  (errors = ∅ →
   _merge_errors_one_for_include_self errors None
   = Ok {[ "_schema" := ["satisfied both of self and others, not only one"] ]})
  ∧ (∀ msgs, errors !! "_schema" = Some msgs →
       Forall (λ m, is_not_matched m = true) msgs →
       _merge_errors_one_for_include_self errors None = Ok (delete "_schema" errors)
       ∧ (errors = {[ "_schema" := msgs ]} →
          _merge_errors_one_for_include_self errors None = Ok ∅))
  ∧ (Exists (λ m, is_not_matched m = false) (schema_messages errors) →
     _merge_errors_one_for_include_self errors None = Ok errors).
Proof.
  unfold _merge_errors_one_for_include_self. split; [|split].
  - intros ->. rewrite decide_True by done. by rewrite insert_empty.
  - intros msgs Hmsgs Hall.
    assert (_merge_errors_one_for_include_self errors None
            = Ok (delete "_schema" errors)) as Hdel.
    { unfold _merge_errors_one_for_include_self.
      rewrite decide_False by (intros ->; by rewrite lookup_empty in Hmsgs).
      unfold schema_messages. rewrite Hmsgs.
      apply forallb_is_not_matched in Hall. change (default [] (Some msgs)) with msgs.
      by rewrite Hall. }
    split; [exact Hdel|].
    intros Heq. unfold _merge_errors_one_for_include_self in Hdel. rewrite Hdel.
    rewrite Heq. by rewrite delete_singleton_eq.
  - intros Hex. assert (errors ≠ ∅) as Hne.
    { intros ->. unfold schema_messages in Hex. rewrite lookup_empty in Hex.
      by apply Exists_nil in Hex. }
    rewrite decide_False by done.
    apply forallb_is_not_matched_false in Hex. by rewrite Hex.
Qed.

Lemma merge_self_succeeded_witness :
  _merge_errors_one_for_include_self ∅ None
  = Ok {[ "_schema" := ["satisfied both of self and others, not only one"] ]}
  ∧ _merge_errors_one_for_include_self Examples.not_matched_A_self None = Ok ∅
  ∧ _merge_errors_one_for_include_self Examples.satisfied_A_B None
    = Ok Examples.satisfied_A_B.
Proof.
  split; [|split].
  - by apply (merge_self_succeeded ∅).
  - destruct (merge_self_succeeded Examples.not_matched_A_self) as (_ & Hnm & _).
    destruct (Hnm [not_matched_message ["A"; "self"]]) as [_ Hclear].
    + reflexivity.
    + repeat constructor.
    + apply Hclear. reflexivity.
  - apply (merge_self_succeeded Examples.satisfied_A_B).
    apply Exists_cons_hd. reflexivity.
Defined.

(** An empty dictionary in place of [None] takes the branch of a failed
    own pass and changes nothing; the callers pass [None] for a successful
    own pass. *)
Lemma merge_self_errors_empty_dict (errors : errdict) :
  _merge_errors_one_for_include_self errors (Some ∅) = Ok errors.
Proof.
  unfold _merge_errors_one_for_include_self, update.
  destruct (negb _); [|done]. by rewrite (left_id_L ∅ (∪)).
Qed.

(** X10: outside the three cases, with a successful own pass, a non-empty
    aggregator mapping without a [_schema] key makes
    [errors.pop("_schema")] raise [KeyError]. *)
Lemma merge_self_succeeded_no_schema_key (errors : errdict) :
  errors ≠ ∅ → errors !! "_schema" = None →
  _merge_errors_one_for_include_self errors None = Raise (KeyError (VStr "_schema")).
Proof.
  intros Hne Hnone. unfold _merge_errors_one_for_include_self, schema_messages.
  rewrite decide_False by done. by rewrite Hnone.
Qed.

(** ** The rule applied to what the oneOf policy reports *)

Lemma is_not_matched_not_matched_message (names : list string) :
  is_not_matched (not_matched_message names) = true.
Proof. reflexivity. Qed.

Lemma is_not_matched_satisfied_message (names : list string) :
  is_not_matched (satisfied_message names) = false.
Proof. reflexivity. Qed.

(** The oneOf policy reports no error, or a single [_schema] message of
    one of its two kinds. *)
Lemma aggregate_oneof_errors (self : OneOfSchema.t) (data : pydict)
    (call : Schema → pydict * errdict) (cands : list Schema)
    (value : pydict) (errors : errdict) :
  aggregate (OneOfSchema.final_check self) call data cands = Ok (value, errors) →
  errors = ∅
  ∨ ∃ msg, errors = {[ "_schema" := [msg] ]}
           ∧ (is_not_matched msg = true ↔ succeeded call cands = []).
Proof.
  unfold aggregate. rewrite attempt_all.
  destruct (succeeded call cands) as [|s0 [|s1 rest]] eqn:Hs; cbn.
  - intros [= _ <-]. right. eexists. split; [done|].
    by rewrite is_not_matched_not_matched_message.
  - intros [= _ <-]. by left.
  - rewrite (satisfied_from_drop call cands cands 0 []) by done. cbn.
    intros [= _ <-]. right. eexists. split; [done|].
    by rewrite is_not_matched_satisfied_message.
Qed.

(** On such errors the rule never raises: [errors.pop("_schema")] finds
    its key. *)
Lemma merge_after_oneof_returns (self : OneOfSchema.t) (data : pydict)
    (call : Schema → pydict * errdict) (cands : list Schema)
    (value : pydict) (errors : errdict) (self_errors : option errdict) :
  aggregate (OneOfSchema.final_check self) call data cands = Ok (value, errors) →
  ∃ merged, _merge_errors_one_for_include_self errors self_errors = Ok merged.
Proof.
  intros [->|(msg & -> & _)]%aggregate_oneof_errors;
    unfold _merge_errors_one_for_include_self, schema_messages.
  - destruct self_errors; [|by eauto].
    rewrite lookup_empty. cbn. eauto.
  - rewrite lookup_singleton_eq. cbn [default].
    destruct self_errors; [by destruct (negb _); eauto|].
    rewrite decide_False by apply insert_non_empty.
    destruct (forallb _ _); eauto.
Qed.

(** ** Batches *)

Section run_many.
Context {D R : Type} (fn : D → result (R * errdict)).

Lemma run_many_from_spec (i : nat) (data : list D) (outs : list (R * errdict))
    (results : list R) (errors : gmap nat errdict) :
  Forall2 (λ d o, fn d = Ok o) data outs →
  (∀ j, i ≤ j → errors !! j = None)%nat →
  ∃ errors' : gmap nat errdict,
    run_many_from fn i data results errors = Ok (results ++ outs.*1, errors')
    ∧ ∀ j, errors' !! j
           = if decide (j < i)%nat then errors !! j else item_error outs (j - i).
Proof.
  intros Hall. revert i results errors.
  induction Hall as [|d [r err] data outs Hd Hall IH]; intros i results errors Hfresh.
  - eexists. split; [cbn; by rewrite app_nil_r|].
    intros j. case_decide; [done|]. unfold item_error.
    rewrite lookup_nil. apply Hfresh. lia.
  - cbn [run_many_from]. rewrite Hd. cbn.
    edestruct (IH (S i) (results ++ [r])
                 (if decide (err = ∅) then errors else <[i:=err]> errors))
      as (errors' & Hrun & Hlook).
    { intros j Hj. destruct (decide (err = ∅)).
      - apply Hfresh. lia.
      - rewrite lookup_insert_ne by lia. apply Hfresh. lia. }
    exists errors'. split; [by rewrite Hrun, <-app_assoc|].
    intros j. rewrite Hlook. unfold item_error.
    destruct (decide (j < i)%nat) as [Hlt|Hge].
    + rewrite decide_True by lia.
      destruct (decide (err = ∅)); [done|]. by rewrite lookup_insert_ne by lia.
    + destruct (decide (j = i)) as [->|Hne].
      * rewrite decide_True by lia. rewrite Nat.sub_diag. cbn.
        destruct (decide (err = ∅)); [apply Hfresh; lia|].
        by rewrite lookup_insert_eq.
      * rewrite decide_False by lia.
        replace (j - i)%nat with (S (j - S i)) by lia. done.
Qed.

(** X11: an exception raised by [fn] is not caught: the batch stops at the
    first item on which [fn] raises, and [run_many] raises that
    exception instead of returning results and errors. *)
Lemma run_many_raise (before after : list D) (d : D) (e : exn)
    (outs : list (R * errdict)) :
  Forall2 (λ d o, fn d = Ok o) before outs →
  fn d = Raise e →
  run_many (before ++ d :: after) fn = Raise e.
Proof.
  unfold run_many. generalize 0%nat (@nil R) (∅ : gmap nat errdict).
  intros i results errors Hall. revert i results errors.
  induction Hall as [|d0 [r err] before outs Hd Hall IH]; intros i results errors He.
  - cbn. by rewrite He.
  - cbn. rewrite Hd. cbn. by apply IH.
Qed.
End run_many.

(** C9 (amended): a batch on every item of which [fn] returns (a result
    and an error mapping, empty or not) is processed item by item in input
    order without stopping at an item with errors: the results list has
    one entry per item, in input order, and the error mapping holds, at
    exactly the indices of the items with a non-empty error mapping, that
    item's error mapping. *)
Theorem run_many_batch {D R} (fn : D → result (R * errdict)) (data : list D)
    (outs : list (R * errdict)) :
  Forall2 (λ d o, fn d = Ok o) data outs →
  ∃ (results : list R) (errors : gmap nat errdict),
    run_many data fn = Ok (results, errors)
    ∧ length results = length data
    ∧ (∀ i d, data !! i = Some d →
         ∃ r err, fn d = Ok (r, err) ∧ results !! i = Some r
                  ∧ errors !! i = if decide (err = ∅) then None else Some err)
    ∧ (∀ i, is_Some (errors !! i) → i < length data)%nat.
Proof.
  intros Hall.
  destruct (run_many_from_spec fn 0 data outs [] ∅ Hall) as (errors & Hrun & Hlook).
  { intros j _. apply lookup_empty. }
  exists outs.*1, errors. split; [exact Hrun|].
  assert (∀ j, errors !! j = item_error outs j) as Hitem.
  { intros j. rewrite Hlook. rewrite decide_False by lia. by rewrite Nat.sub_0_r. }
  split; [by rewrite length_fmap, (Forall2_length _ _ _ Hall)|]. split.
  - intros i d Hi.
    destruct (Forall2_lookup_l _ _ _ _ _ Hall Hi) as ([r err] & Ho & Hfn).
    exists r, err. split; [done|]. split.
    + by rewrite list_lookup_fmap, Ho.
    + rewrite Hitem. unfold item_error. by rewrite Ho.
  - intros i. rewrite Hitem. unfold item_error.
    destruct (outs !! i) as [[r err]|] eqn:Ho; [|by intros [? ?]].
    intros _. apply lookup_lt_Some in Ho. by rewrite (Forall2_length _ _ _ Hall).
Qed.

Lemma run_many_batch_witness :
  ∃ (results : list pydict) (errors : gmap nat errdict),
    run_many Examples.batch (λ d, _unmarshall_one Examples.composed_AB d false)
    = Ok (results, errors)
    ∧ length results = 3%nat
    ∧ errors !! 0%nat = None
    ∧ errors !! 1%nat = Some {[ "_schema" := ["not matched, any of ['A', 'B']"] ]}
    ∧ errors !! 2%nat = Some {[ "_schema" := ["satisfied both of ['A', 'B'], not only one"] ]}.
Proof.
  destruct (run_many_batch (λ d, _unmarshall_one Examples.composed_AB d false)
              Examples.batch Examples.batch_outcomes)
    as (results & errors & Hrun & Hlen & Hitems & _).
  - repeat constructor; vm_compute; reflexivity.
  - exists results, errors. split; [exact Hrun|]. split; [exact Hlen|].
    destruct (Hitems 0%nat Examples.x1 eq_refl) as (r0 & e0 & H0 & _ & ->).
    destruct (Hitems 1%nat Examples.z3 eq_refl) as (r1 & e1 & H1 & _ & ->).
    destruct (Hitems 2%nat Examples.x1y2 eq_refl) as (r2 & e2 & H2 & _ & ->).
    vm_compute in H0, H1, H2.
    injection H0 as _ <-. injection H1 as _ <-. injection H2 as _ <-.
    repeat split; vm_compute; reflexivity.
Defined.

(** C9 (as stated) fails: the second item of the batch lacks the
    discriminator field, [_unmarshall_one] raises [KeyError] on it, and
    [run_many] raises too: no results list and no error mapping are
    returned, and the third item is never processed. *)
Lemma run_many_batch_aborts :
  run_many [Examples.a_cat; Examples.no_type; Examples.a_cat]
    (λ d, _unmarshall_one MoreExamples.composed_pets d false)
  = Raise (KeyError (VStr "type"))
  ∧ ¬ ∃ (results : list pydict) (errors : gmap nat errdict),
        run_many [Examples.a_cat; Examples.no_type; Examples.a_cat]
          (λ d, _unmarshall_one MoreExamples.composed_pets d false)
        = Ok (results, errors).
Proof.
  assert (run_many [Examples.a_cat; Examples.no_type; Examples.a_cat]
            (λ d, _unmarshall_one MoreExamples.composed_pets d false)
          = Raise (KeyError (VStr "type"))) as Hraise
    by (vm_compute; reflexivity).
  split; [exact Hraise|].
  intros (results & errors & Hok). rewrite Hraise in Hok. discriminate Hok.
Qed.

(** ** The two directions *)

(** C10: without a discriminator, [find_schemas] returns the whole declared
    variant list whatever the payload holds, so [_unmarshall_one] calls
    [load] on every declared variant; [_marshall_one] gets its candidates
    from [find_matched_schemas], which filters by required fields. *)
Theorem unmarshall_tries_every_variant (self : Composed) (data : pydict)
    (partial : bool) :
  discriminator_name (finder self) = None →
  find_schemas (finder self) data = Ok (schemas (finder self))
  ∧ _unmarshall_one self data partial
    = final_check self data (schemas (finder self))
        ((λ s, (load s data partial).1) <$> schemas (finder self))
        ((λ s, (load s data partial).2) <$> schemas (finder self))
        ((λ s, (load s data partial).1)
           <$> succeeded (λ s, load s data partial) (schemas (finder self)))
  ∧ ∃ cands : list Schema,
      find_matched_schemas (finder self) data = Ok cands
      ∧ cands = filter (required_subset data) (kept_variants (schemas (finder self)))
      ∧ _marshall_one self data
        = final_check self data cands
            ((λ s, (dump s data).1) <$> cands)
            ((λ s, (dump s data).2) <$> cands)
            ((λ s, (dump s data).1) <$> succeeded (λ s, dump s data) cands).
Proof.
  intros Hd.
  assert (find_schemas (finder self) data = Ok (schemas (finder self))) as Hfind.
  { unfold find_schemas. by rewrite Hd. }
  split; [exact Hfind|]. split.
  - unfold _unmarshall_one. rewrite Hfind. cbn. unfold aggregate.
    by rewrite attempt_all.
  - eexists. split; [by apply find_matched_schemas_kept|]. split; [done|].
    unfold _marshall_one. rewrite find_matched_schemas_kept by done. cbn.
    unfold aggregate. by rewrite attempt_all.
Qed.

Lemma unmarshall_tries_every_variant_witness :
  find_schemas (finder Examples.composed_AB) Examples.x1
  = Ok [Examples.A; Examples.B]
  ∧ find_matched_schemas (finder Examples.composed_AB) Examples.x1
    = Ok [Examples.A].
Proof.
  destruct (unmarshall_tries_every_variant Examples.composed_AB Examples.x1 false
              eq_refl) as (Hall & _ & cands & Hcands & Heq & _).
  split; [exact Hall|]. rewrite Hcands, Heq. vm_compute. reflexivity.
Defined.

(** * Further properties *)

(** ** Structural matching in general *)

Lemma last_filter_Some {A} (P : A → Prop) `{∀ x, Decision (P x)} (l : list A) (x : A) :
  last (filter P l) = Some x
  ↔ ∃ before after, l = before ++ x :: after ∧ P x ∧ Forall (λ y, ¬ P y) after.
Proof.
  induction l as [|y l IH] using rev_ind.
  - split; [done|]. intros (before & after & Heq & _). by destruct before.
  - rewrite filter_app, filter_cons, filter_nil. destruct (decide (P y)) as [Hy|Hy].
    + rewrite last_snoc. split.
      * intros [= ->]. exists l, []. by repeat split.
      * intros (before & after & Heq & Hx & Hafter).
        destruct after as [|z after _] using rev_ind.
        -- apply app_inj_tail in Heq as [_ ->]. done.
        -- rewrite app_comm_cons, app_assoc in Heq.
           apply app_inj_tail in Heq as [_ ->].
           apply Forall_app in Hafter as [_ Hz].
           rewrite Forall_singleton in Hz. by destruct Hz.
    + rewrite app_nil_r, IH. split.
      * intros (before & after & -> & Hx & Hafter).
        exists before, (after ++ [y]). rewrite <-app_assoc. repeat split; [done|].
        apply Forall_app. split; [done|]. by apply Forall_singleton.
      * intros (before & after & Heq & Hx & Hafter).
        destruct after as [|z after _] using rev_ind.
        -- apply app_inj_tail in Heq as [_ ->]. done.
        -- rewrite app_comm_cons, app_assoc in Heq.
           apply app_inj_tail in Heq as [-> ->].
           apply Forall_app in Hafter as [Hafter _]. by exists before, after.
Qed.

Lemma elem_of_kept_variants (ss : list Schema) (s : Schema) :
  s ∈ kept_variants ss ↔ last_with ss (signature s) = Some s.
Proof.
  unfold kept_variants. rewrite list_elem_of_omap. split.
  - intros (sig & _ & Hlast).
    by destruct (last_with_signature _ _ _ Hlast) as [_ <-].
  - intros Hlast. exists (signature s). split; [|done].
    apply elem_of_first_occurrences, list_elem_of_fmap_2.
    by destruct (last_with_signature _ _ _ Hlast).
Qed.

Lemma kept_variants_signatures (f : SchemaFinder) :
  signature <$> kept_variants (schemas f)
  = first_occurrences (signature <$> schemas f).
Proof.
  rewrite <-(signature_mapping_keys f), <-(signature_mapping_kept f).
  generalize (signature_mapping_values f).
  induction (signature_mapping f) as [|[sig s] l IH]; intros Hvalues; [done|].
  rewrite !fmap_cons. cbn [fst snd]. f_equal.
  - assert (last_with (schemas f) sig = Some s) as Hs
      by (apply Hvalues, elem_of_cons; by left).
    by destruct (last_with_signature _ _ _ Hs).
  - apply IH. intros sig' s' Hin. apply Hvalues, elem_of_cons. by right.
Qed.

(** X1: without a discriminator and for any variant list, a variant is
    returned by [find_matched_schemas] exactly when it is declared, no
    variant declared after it has the same required-field signature, and
    all its required fields are keys of the payload. *)
Theorem find_matched_schemas_membership (f : SchemaFinder) (data : pydict) :
  discriminator_name f = None →
  ∃ got : list Schema,
    find_matched_schemas f data = Ok got
    ∧ ∀ s, s ∈ got ↔
           (∃ before after,
              schemas f = before ++ s :: after
              ∧ Forall (λ s', signature s' ≠ signature s) after)
           ∧ ∀ k, k ∈ required_names s → is_Some (data !! k).
Proof.
  intros Hd. eexists. split; [by apply find_matched_schemas_kept|].
  intros s. rewrite list_elem_of_filter, elem_of_kept_variants.
  unfold last_with, required_subset.
  rewrite last_filter_Some, Forall_forall.
  assert ((∀ k, k ∈ required_names s → k ∈ dom data)
          ↔ ∀ k, k ∈ required_names s → is_Some (data !! k)) as ->.
  { split; intros Hreq k Hk; apply elem_of_dom; by apply Hreq. }
  split.
  - intros [Hreq (before & after & Heq & _ & Hafter)]. split; [|done].
    by exists before, after.
  - intros [(before & after & Heq & Hafter) Hreq]. split; [done|].
    by exists before, after.
Qed.

Lemma find_matched_schemas_membership_witness :
  ∃ got : list Schema,
    find_matched_schemas (Examples.finder_of [Examples.A; Examples.B; Examples.A2])
      Examples.x1y2 = Ok got
    ∧ Examples.A2 ∈ got.
Proof.
  destruct (find_matched_schemas_membership
              (Examples.finder_of [Examples.A; Examples.B; Examples.A2])
              Examples.x1y2 eq_refl) as (got & Hgot & Hin).
  exists got. split; [exact Hgot|]. apply Hin. split.
  - exists [Examples.A; Examples.B], []. split; [reflexivity|constructor].
  - intros k Hk. vm_compute in Hk. apply list_elem_of_singleton in Hk. subst k.
    vm_compute. eauto.
Defined.

(** X2: whatever the variant list, the variants [find_matched_schemas]
    returns without a discriminator are declared ones, each with all its
    required fields among the payload's keys, and no two of them share a
    signature. *)
Theorem find_matched_schemas_sound (f : SchemaFinder) (data : pydict)
    (got : list Schema) :
  discriminator_name f = None →
  find_matched_schemas f data = Ok got →
  got ⊆ schemas f
  ∧ Forall (required_subset data) got
  ∧ NoDup (signature <$> got).
Proof.
  intros Hd. rewrite find_matched_schemas_kept by done. intros [= <-].
  split; [|split].
  - intros s [_ Hs%elem_of_kept_variants]%list_elem_of_filter.
    by destruct (last_with_signature _ _ _ Hs).
  - apply Forall_forall. by intros s [Hs _]%list_elem_of_filter.
  - apply (sublist_NoDup _ (signature <$> kept_variants (schemas f))).
    + rewrite kept_variants_signatures. apply NoDup_first_occurrences.
    + apply fmap_sublist, sublist_filter.
Qed.

Lemma find_matched_schemas_sound_witness :
  [Examples.A2; Examples.B] ⊆ [Examples.A; Examples.B; Examples.A2]
  ∧ Forall (required_subset Examples.x1y2) [Examples.A2; Examples.B]
  ∧ NoDup (signature <$> [Examples.A2; Examples.B]).
Proof.
  apply (find_matched_schemas_sound
           (Examples.finder_of [Examples.A; Examples.B; Examples.A2])
           Examples.x1y2 [Examples.A2; Examples.B] eq_refl).
  vm_compute. reflexivity.
Defined.

Lemma filter_sublist_mono {A} (P Q : A → Prop) `{∀ x, Decision (P x)}
    `{∀ x, Decision (Q x)} (l : list A) :
  (∀ x, P x → Q x) → filter P l `sublist_of` filter Q l.
Proof.
  intros HPQ. induction l as [|x l IH]; [done|].
  rewrite !filter_cons. destruct (decide (P x)) as [HP|HP].
  - rewrite decide_True by auto. by apply sublist_skip.
  - destruct (decide (Q x)); [by apply sublist_cons|done].
Qed.

(** X3: without a discriminator, adding keys to a payload never removes a
    match: the candidates for the smaller payload are a sublist of those
    for the larger one. *)
Theorem find_matched_schemas_monotone (f : SchemaFinder) (data data' : pydict) :
  discriminator_name f = None →
  dom data ⊆ dom data' →
  ∃ got got' : list Schema,
    find_matched_schemas f data = Ok got
    ∧ find_matched_schemas f data' = Ok got'
    ∧ got `sublist_of` got'.
Proof.
  intros Hd Hdom. eexists _, _.
  split; [by apply find_matched_schemas_kept|].
  split; [by apply find_matched_schemas_kept|].
  apply filter_sublist_mono. intros s Hs. unfold required_subset.
  eapply Forall_impl; [exact Hs|]. intros k. apply Hdom.
Qed.

Lemma find_matched_schemas_monotone_witness :
  ∃ got got' : list Schema,
    find_matched_schemas (Examples.finder_of [Examples.A; Examples.B]) Examples.x1
    = Ok got
    ∧ find_matched_schemas (Examples.finder_of [Examples.A; Examples.B]) Examples.x1y2
      = Ok got'
    ∧ got `sublist_of` got'.
Proof.
  apply (find_matched_schemas_monotone
           (Examples.finder_of [Examples.A; Examples.B]) Examples.x1 Examples.x1y2
           eq_refl).
  unfold Examples.x1y2. rewrite dom_insert_L. set_solver.
Defined.

(** X4: the signature of a variant is the sorted list of its required
    names, so two variants have the same signature exactly when their
    required names are the same up to order. *)
Theorem signature_permutation (s1 s2 : Schema) :
  Sorted String.le (signature s1)
  ∧ signature s1 ≡ₚ required_names s1
  ∧ (signature s1 = signature s2 ↔ required_names s1 ≡ₚ required_names s2).
Proof.
  unfold signature. split; [apply (Sorted_merge_sort String.le)|].
  split; [apply merge_sort_Permutation|]. split.
  - intros Heq.
    rewrite <-(merge_sort_Permutation String.le (required_names s1)), Heq.
    apply merge_sort_Permutation.
  - intros Hperm. apply (Sorted_unique String.le).
    + apply (Sorted_merge_sort String.le).
    + apply (Sorted_merge_sort String.le).
    + by rewrite !merge_sort_Permutation.
Qed.

(** ** Building the finder from an explicit mapping *)

Lemma dict_of_is_Some `{Countable K} {A} (key : A → K) (xs : list A) (k : K) :
  is_Some (dict_of key xs !! k) ↔ ∃ x, x ∈ xs ∧ key x = k.
Proof.
  rewrite dict_of_lookup, last_is_Some. split.
  - intros Hne. destruct (filter _ xs) as [|x l] eqn:Hf; [done|].
    assert (x ∈ filter (λ x, key x = k) xs) as Hx by (rewrite Hf; left).
    apply list_elem_of_filter in Hx as [? ?]. eauto.
  - intros (x & Hx & Hk) Hnil.
    assert (x ∈ filter (λ x, key x = k) xs) as Hin by (by apply list_elem_of_filter).
    rewrite Hnil in Hin. by apply elem_of_nil in Hin.
Qed.

Lemma named_mapping_returns (m : gmap nat Schema) (items : list (string * nat))
    (acc : gmap string Schema) :
  Forall (λ it, is_Some (m !! it.2)) items →
  ∃ r, named_mapping m items acc = Ok r.
Proof.
  intros Hall. revert acc.
  induction Hall as [|[name c] items [s Hs] Hall IH]; intros acc; cbn.
  - eauto.
  - cbn in Hs. rewrite Hs. apply IH.
Qed.

Lemma named_mapping_raises (m : gmap nat Schema) (before after : list (string * nat))
    (name : string) (c : nat) (acc : gmap string Schema) :
  Forall (λ it, is_Some (m !! it.2)) before →
  m !! c = None →
  named_mapping m (before ++ (name, c) :: after) acc = Raise (KeyError (VClass c)).
Proof.
  intros Hall Hc. revert acc.
  induction Hall as [|[name0 c0] before [s Hs] Hall IH]; intros acc; cbn.
  - by rewrite Hc.
  - cbn in Hs. rewrite Hs. apply IH.
Qed.

(** X5: with an explicit discriminator mapping, [SchemaFinder.__init__]
    succeeds when every mapped class is the class of one of the schemas,
    and otherwise raises [KeyError] with the first mapped class that is
    the class of none. *)
Theorem SchemaFinder_init_mapping (ss : list Schema) (d : Discriminator)
    (items : list (string * nat)) :
  mapping d = Some items →
  (Forall (λ it, ∃ s, s ∈ ss ∧ cls s = it.2) items →
   ∃ f, SchemaFinder_init ss (Some d) = Ok f
        ∧ schemas f = ss ∧ discriminator_name f = Some (fieldname d))
  ∧ (∀ before name c after,
       items = before ++ (name, c) :: after →
       Forall (λ it, ∃ s, s ∈ ss ∧ cls s = it.2) before →
       (∀ s, s ∈ ss → cls s ≠ c) →
       SchemaFinder_init ss (Some d) = Raise (KeyError (VClass c))).
Proof.
  intros Hitems. unfold SchemaFinder_init. rewrite Hitems. split.
  - intros Hall.
    destruct (named_mapping_returns (dict_of cls ss) items ∅) as [r Hr].
    { eapply Forall_impl; [exact Hall|]. intros it. apply dict_of_is_Some. }
    rewrite Hr. cbn. eauto.
  - intros before name c after -> Hall Hc.
    rewrite named_mapping_raises; [done| |].
    + eapply Forall_impl; [exact Hall|]. intros it. apply dict_of_is_Some.
    + apply eq_None_not_Some. intros (s & Hs & Hcls)%dict_of_is_Some.
      by apply (Hc s).
Qed.

Lemma SchemaFinder_init_mapping_witness :
  (∃ f, SchemaFinder_init [Examples.Cat; Examples.Dog] (Some MoreExamples.by_kind)
        = Ok f)
  ∧ SchemaFinder_init [Examples.Cat; Examples.Dog] (Some MoreExamples.by_kind_fish)
    = Raise (KeyError (VClass 9)).
Proof.
  split.
  - destruct (SchemaFinder_init_mapping [Examples.Cat; Examples.Dog]
                MoreExamples.by_kind _ eq_refl) as [Hok _].
    destruct Hok as (f & Hf & _); [|by exists f].
    apply Forall_cons. split; [|apply Forall_singleton].
    + exists Examples.Cat. split; [|reflexivity]. apply elem_of_cons. by left.
    + exists Examples.Dog. split; [|reflexivity].
      apply elem_of_cons. right. apply elem_of_cons. by left.
  - destruct (SchemaFinder_init_mapping [Examples.Cat; Examples.Dog]
                MoreExamples.by_kind_fish _ eq_refl) as [_ Hraise].
    apply (Hraise [("cat", 5%nat)] "fish" 9%nat []); [reflexivity| |].
    + apply Forall_singleton. exists Examples.Cat. split; [|reflexivity].
      apply elem_of_cons. by left.
    + intros s Hs. apply elem_of_cons in Hs as [->|Hs]; [by vm_compute|].
      apply list_elem_of_singleton in Hs as ->. by vm_compute.
Defined.

(** ** What the policies report *)

(** X6: the oneOf policy always returns over the lists of the candidate
    loop, and its error mapping is empty exactly when exactly one
    candidate returned no error. *)
Theorem oneof_success_iff_one (self : OneOfSchema.t) (data : pydict)
    (call : Schema → pydict * errdict) (cands : list Schema) :
  ∃ (value : pydict) (errors : errdict),
    aggregate (OneOfSchema.final_check self) call data cands = Ok (value, errors)
    ∧ (errors = ∅ ↔ length (succeeded call cands) = 1%nat).
Proof.
  unfold aggregate. rewrite attempt_all.
  destruct (succeeded call cands) as [|s0 [|s1 rest]] eqn:Hs; cbn.
  - eexists _, _. split; [done|]. split; [|done].
    intros Hempty. by apply map_non_empty_singleton in Hempty.
  - eexists _, _. by split.
  - rewrite (satisfied_from_drop call cands cands 0 []) by done. cbn.
    eexists _, _. split; [done|]. split; [|done].
    intros Hempty. by apply map_non_empty_singleton in Hempty.
Qed.

(** X7: the anyOf policy always returns over the lists of the candidate
    loop, and its error mapping is empty exactly when at least one
    candidate returned no error. *)
Theorem anyof_success_iff_some (self : AnyOfSchema.t) (data : pydict)
    (call : Schema → pydict * errdict) (cands : list Schema) :
  ∃ (value : pydict) (errors : errdict),
    aggregate (AnyOfSchema.final_check self) call data cands = Ok (value, errors)
    ∧ (errors = ∅ ↔ succeeded call cands ≠ []).
Proof.
  unfold aggregate. rewrite attempt_all.
  destruct (succeeded call cands) as [|s0 rest] eqn:Hs; cbn.
  - eexists _, _. split; [done|]. split; [|done].
    intros Hempty. by apply map_non_empty_singleton in Hempty.
  - eexists _, _. by split.
Qed.

(** X8: on the same candidates the two policies return the same value;
    they differ only in the errors they report. *)
Theorem oneof_anyof_same_value (one : OneOfSchema.t) (any : AnyOfSchema.t)
    (data : pydict) (call : Schema → pydict * errdict) (cands : list Schema) :
  ∃ (value : pydict) (errors1 errors2 : errdict),
    aggregate (OneOfSchema.final_check one) call data cands = Ok (value, errors1)
    ∧ aggregate (AnyOfSchema.final_check any) call data cands = Ok (value, errors2).
Proof.
  unfold aggregate. rewrite attempt_all.
  destruct (succeeded call cands) as [|s0 [|s1 rest]] eqn:Hs; cbn.
  - by eexists _, _, _.
  - by eexists _, _, _.
  - rewrite (satisfied_from_drop call cands cands 0 []) by done. cbn.
    by eexists _, _, _.
Qed.

Lemma aggregate_oneof_cases (self : OneOfSchema.t) (data : pydict)
    (call : Schema → pydict * errdict) (cands : list Schema) :
  ∃ value : pydict,
    (succeeded call cands = []
     ∧ ∃ names, aggregate (OneOfSchema.final_check self) call data cands
                = Ok (value, {[ "_schema" := [not_matched_message names] ]}))
    ∨ (length (succeeded call cands) = 1%nat
       ∧ aggregate (OneOfSchema.final_check self) call data cands = Ok (value, ∅))
    ∨ ((2 ≤ length (succeeded call cands))%nat
       ∧ ∃ names, aggregate (OneOfSchema.final_check self) call data cands
                  = Ok (value, {[ "_schema" := [satisfied_message names] ]})).
Proof.
  unfold aggregate. rewrite attempt_all.
  destruct (succeeded call cands) as [|s0 [|s1 rest]] eqn:Hs.
  - eexists. left. split; [done|]. by eexists.
  - eexists. right. left. by split.
  - eexists. right. right. split; [cbn; lia|].
    cbn [OneOfSchema.final_check fmap list_fmap].
    rewrite (satisfied_from_drop call cands cands 0 []) by done. by eexists.
Qed.

Lemma merge_not_matched (names : list string) (self_errors : option errdict) :
  _merge_errors_one_for_include_self
    {[ "_schema" := [not_matched_message names] ]} self_errors
  = Ok (if self_errors is None then ∅
        else {[ "_schema" := [not_matched_message names] ]}).
Proof.
  unfold _merge_errors_one_for_include_self, schema_messages.
  rewrite lookup_singleton_eq.
  change (forallb is_not_matched (default [] (Some [not_matched_message names])))
    with (is_not_matched (not_matched_message names) && true).
  rewrite is_not_matched_not_matched_message. cbn [andb negb].
  destruct self_errors; [done|].
  rewrite decide_False by apply map_non_empty_singleton.
  by rewrite delete_singleton_eq.
Qed.

Lemma merge_satisfied (names : list string) (self_errors : option errdict) :
  _merge_errors_one_for_include_self
    {[ "_schema" := [satisfied_message names] ]} self_errors
  = Ok (match self_errors with
        | Some self_errors =>
            update {[ "_schema" := [satisfied_message names] ]} self_errors
        | None => {[ "_schema" := [satisfied_message names] ]}
        end).
Proof.
  unfold _merge_errors_one_for_include_self, schema_messages.
  rewrite lookup_singleton_eq.
  change (forallb is_not_matched (default [] (Some [satisfied_message names])))
    with (is_not_matched (satisfied_message names) && true).
  rewrite is_not_matched_satisfied_message. cbn [andb negb].
  destruct self_errors; [done|].
  by rewrite decide_False by apply map_non_empty_singleton.
Qed.

Lemma merge_no_error (self_errors : option errdict) :
  _merge_errors_one_for_include_self ∅ self_errors
  = Ok (if self_errors is None then {[ "_schema" := [self_and_others] ]} else ∅).
Proof.
  unfold _merge_errors_one_for_include_self, schema_messages.
  rewrite lookup_empty.
  change (forallb is_not_matched (default [] None)) with true. cbn [negb].
  destruct self_errors; [done|]. by rewrite decide_True, insert_empty.
Qed.

Lemma update_non_empty {V} (d other : gmap string V) : d ≠ ∅ → update d other ≠ ∅.
Proof.
  unfold update. intros Hd Hempty. apply Hd.
  apply map_empty. intros k. apply (f_equal (λ m, m !! k)) in Hempty.
  rewrite lookup_union, lookup_empty in Hempty.
  by destruct (other !! k), (d !! k).
Qed.

Lemma oneof_then_merge (self : OneOfSchema.t) (data : pydict)
    (call : Schema → pydict * errdict) (cands : list Schema)
    (self_errors : option errdict) :
  ∃ (value : pydict) (errors merged : errdict),
    aggregate (OneOfSchema.final_check self) call data cands = Ok (value, errors)
    ∧ _merge_errors_one_for_include_self errors self_errors = Ok merged
    ∧ (merged = ∅
       ↔ (length (succeeded call cands)
          + (if self_errors is None then 1 else 0) = 1)%nat).
Proof.
  destruct (aggregate_oneof_cases self data call cands)
    as (value & [[Hs (names & Hagg)]|[[Hs Hagg]|[Hs (names & Hagg)]]]).
  - eexists _, _, _. split; [exact Hagg|]. split; [apply merge_not_matched|].
    rewrite Hs. destruct self_errors; cbn; [|done].
    split; [|done]. intros Hempty. by apply map_non_empty_singleton in Hempty.
  - eexists _, _, _. split; [exact Hagg|]. split; [apply merge_no_error|].
    rewrite Hs. destruct self_errors; cbn; [done|].
    split; [|done]. intros Hempty. by apply map_non_empty_singleton in Hempty.
  - eexists _, _, _. split; [exact Hagg|]. split; [apply merge_satisfied|].
    split; [|destruct self_errors; lia].
    destruct self_errors; intros Hempty.
    + by apply update_non_empty in Hempty; [|apply map_non_empty_singleton].
    + by apply map_non_empty_singleton in Hempty.
Qed.

(** X9: the oneOf policy followed by the self-merge rule never raises, and
    leaves no error exactly when exactly one among the candidates and the
    schema itself succeeded (the own pass counts as a success when
    [self_errors] is [None]). *)
Theorem oneof_with_self_iff_one (self : OneOfSchema.t) (data : pydict)
    (call : Schema → pydict * errdict) (cands : list Schema)
    (self_errors : option errdict) :
  ∃ (value : pydict) (errors merged : errdict),
    aggregate (OneOfSchema.final_check self) call data cands = Ok (value, errors)
    ∧ _merge_errors_one_for_include_self errors self_errors = Ok merged
    ∧ (merged = ∅
       ↔ (length (succeeded call cands)
          + (if self_errors is None then 1 else 0) = 1)%nat).
Proof. apply oneof_then_merge. Qed.

(** ** The self-merge rule and batches at their edges *)

Lemma merge_self_succeeded_no_schema_key_witness :
  _merge_errors_one_for_include_self Examples.name_missing None
  = Raise (KeyError (VStr "_schema")).
Proof.
  apply merge_self_succeeded_no_schema_key.
  - apply map_non_empty_singleton.
  - reflexivity.
Defined.

Lemma run_many_raise_witness :
  run_many [Examples.a_cat; Examples.no_type; Examples.a_cat]
    (λ d, _unmarshall_one MoreExamples.composed_pets d false)
  = Raise (KeyError (VStr "type")).
Proof.
  apply (run_many_raise (λ d, _unmarshall_one MoreExamples.composed_pets d false)
           [Examples.a_cat] [Examples.a_cat] Examples.no_type (KeyError (VStr "type"))
           [(Examples.a_cat, ∅)]).
  - apply Forall2_cons. split; [vm_compute; reflexivity|constructor].
  - vm_compute. reflexivity.
Defined.

(** ** The [self] marker *)

Lemma detect_from_spec (l : list class_entry) (flag : bool) (acc : list class_entry) :
  detect_from l flag acc
  = (acc ++ filter (λ c, is_self c = false) l, flag || existsb is_self l).
Proof.
  revert flag acc. induction l as [|c l IH]; intros flag acc; cbn [detect_from].
  - by rewrite app_nil_r, orb_false_r.
  - rewrite filter_cons. destruct c as [s|name]; cbn [is_self existsb].
    + rewrite IH, decide_True by done. by rewrite <-app_assoc.
    + destruct (decide (name = "self")) as [->|Hne].
      * rewrite IH, bool_decide_eq_true_2 by done.
        rewrite decide_False by done. by rewrite orb_true_r.
      * rewrite IH, bool_decide_eq_false_2 by done.
        rewrite decide_True by done. by rewrite <-app_assoc.
Qed.

(** X12: [_detect_include_self] returns the entries that are not the
    marker ["self"], in their order, and whether the marker occurred;
    applied to its own output it returns the same list with the flag
    [False]. *)
Theorem _detect_include_self_spec (l : list class_entry) :
  _detect_include_self l = (filter (λ c, is_self c = false) l, existsb is_self l)
  ∧ _detect_include_self (_detect_include_self l).1
    = ((_detect_include_self l).1, false).
Proof.
  unfold _detect_include_self. rewrite !detect_from_spec. cbn [fst app orb].
  split; [done|]. rewrite list_filter_filter. f_equal.
  - apply list_filter_iff. tauto.
  - induction l as [|c l IH]; [done|]. rewrite filter_cons.
    destruct (is_self c) eqn:Hc.
    + by rewrite decide_False by done.
    + rewrite decide_True by done. cbn [existsb]. by rewrite Hc, IH.
Qed.

(** ** [OneOfSchema.__init__] *)

Lemma instantiate_all_str (cs : list class_entry) :
  Exists (λ c, is_str c = true) cs → instantiate_all cs = Raise TypeError.
Proof.
  induction cs as [|c cs IH]; intros Hex; [by apply Exists_nil in Hex|].
  cbn [instantiate_all]. destruct c as [s|name]; [|done].
  apply Exists_cons in Hex as [Hc|Hex]; [done|]. cbn. by rewrite IH.
Qed.

(** X13: once [OneOfSchema.__init__] has succeeded, the class attributes
    it leaves hold the detected flag, and instantiating again from them
    changes nothing and builds the same marshaller: the flag is not
    detected a second time on the list the marker was removed from. *)
Theorem OneOfSchema_init_stable (k k' : oneof_class) (m : Composed) :
  OneOfSchema_init k = Ok (k', m) →
  class_include_self k' = Some (include_self m)
  ∧ OneOfSchema_init k' = Ok (k', m).
Proof.
  destruct k as [sc [b|] osc od]; unfold OneOfSchema_init; cbn.
  - destruct (match osc with [] => _ | _ => _ end) as [cs|e] eqn:Hcs; [|done]. cbn.
    destruct (instantiate_all cs) as [ss|e] eqn:Hss; [|done]. cbn.
    destruct (SchemaFinder_init ss od) as [f|e] eqn:Hf; [|done]. cbn.
    intros [= <- <-]. split; [done|]. cbn. rewrite Hcs. cbn. rewrite Hss. cbn.
    by rewrite Hf.
  - destruct sc as [l|]; [|done]. destruct (_detect_include_self l) as [l' b]. cbn.
    destruct (match osc with [] => _ | _ => _ end) as [cs|e] eqn:Hcs; [|done]. cbn.
    destruct (instantiate_all cs) as [ss|e] eqn:Hss; [|done]. cbn.
    destruct (SchemaFinder_init ss od) as [f|e] eqn:Hf; [|done]. cbn.
    intros [= <- <-]. split; [done|]. cbn. rewrite Hcs. cbn. rewrite Hss. cbn.
    by rewrite Hf.
Qed.

Lemma OneOfSchema_init_stable_witness :
  ∃ (k' : oneof_class) (m : Composed),
    OneOfSchema_init MoreExamples.class_A_self_B = Ok (k', m)
    ∧ class_include_self k' = Some true
    ∧ OneOfSchema_init k' = Ok (k', m).
Proof.
  eexists _, _. split; [reflexivity|]. split; [reflexivity|].
  refine (proj2 (OneOfSchema_init_stable MoreExamples.class_A_self_B _ _ _)).
  reflexivity.
Defined.

Lemma instantiate_all_classes (l : list class_entry) :
  Forall (λ c, is_str c = true → is_self c = true) l →
  instantiate_all (filter (λ c, is_self c = false) l) = Ok (classes_of l).
Proof.
  induction 1 as [|c l Hc Hall IH]; [done|].
  rewrite filter_cons. destruct c as [s|name].
  - rewrite decide_True by done. cbn [instantiate_all instantiate]. cbn.
    by rewrite IH.
  - rewrite decide_False by (by rewrite (Hc eq_refl)). exact IH.
Qed.

Ltac init_step :=
  cbn [mbind result_bind opts_schema_classes class_include_self schema_classes
       opts_discriminator SchemaFinder_init].

(** X14: the marker ["self"] is honoured in the class attribute
    [schema_classes] only: any string in [Meta.schema_classes], the marker
    included, makes [__init__] raise [TypeError], whereas with the marker
    in the class attribute (no other string, no [Meta] list, no
    discriminator) [__init__] builds the finder over exactly the listed
    classes and sets the flag to whether the marker occurred. *)
Theorem OneOfSchema_init_marker (k : oneof_class) :
  (Exists (λ c, is_str c = true) (opts_schema_classes k) →
   OneOfSchema_init k = Raise TypeError)
  ∧ (∀ l, class_include_self k = None →
          schema_classes k = Some l →
          opts_schema_classes k = [] →
          opts_discriminator k = None →
          Forall (λ c, is_str c = true → is_self c = true) l →
          ∃ k' m,
            OneOfSchema_init k = Ok (k', m)
            ∧ schemas (finder m) = classes_of l
            ∧ discriminator_name (finder m) = None
            ∧ include_self m = existsb is_self l
            ∧ class_include_self k' = Some (existsb is_self l)).
Proof.
  destruct k as [sc flag osc od]. init_step. split.
  - intros Hex. unfold OneOfSchema_init. init_step.
    destruct osc as [|c osc]; [by apply Exists_nil in Hex|].
    destruct flag as [b|]; init_step.
    + by rewrite (instantiate_all_str (c :: osc)).
    + destruct sc as [l|]; [|done]. destruct (_detect_include_self l). init_step.
      by rewrite (instantiate_all_str (c :: osc)).
  - intros l -> -> -> -> Hall. unfold OneOfSchema_init. init_step.
    unfold _detect_include_self. rewrite detect_from_spec.
    cbn [app orb]. init_step.
    rewrite instantiate_all_classes by done. init_step.
    eexists _, _. by repeat split.
Qed.

Lemma OneOfSchema_init_marker_witness :
  OneOfSchema_init MoreExamples.class_meta_self = Raise TypeError
  ∧ ∃ k' m, OneOfSchema_init MoreExamples.class_A_self_B = Ok (k', m)
            ∧ schemas (finder m) = [Examples.A; Examples.B]
            ∧ include_self m = true.
Proof.
  split.
  - apply (OneOfSchema_init_marker MoreExamples.class_meta_self).
    apply Exists_cons_tl, Exists_cons_hd. reflexivity.
  - destruct (OneOfSchema_init_marker MoreExamples.class_A_self_B) as [_ Hok].
    destruct (Hok [ClassOf Examples.A; Str "self"; ClassOf Examples.B])
      as (k' & m & Hinit & Hschemas & _ & Hflag & _); try reflexivity.
    + repeat constructor; intros [=].
    + by exists k', m.
Defined.

(** ** The self-merge rule over a batch *)

Lemma merge_indices_spec (indices : list nat) (errors merged : gmap nat errdict)
    (self_errors : option (gmap nat errdict)) :
  NoDup indices →
  merge_indices indices errors self_errors = Ok merged →
  ∀ i, match errors !! i with
       | None => merged !! i = None
       | Some e =>
           if decide (i ∈ indices)
           then ∃ e', _merge_errors_one_for_include_self e
                        (self_errors_at self_errors i) = Ok e'
                      ∧ merged !! i = Some e'
           else merged !! i = Some e
       end.
Proof.
  intros Hnd. revert errors.
  induction Hnd as [|i0 indices Hi0 Hnd IH]; intros errors; cbn [merge_indices].
  - intros [= <-] i. by destruct (errors !! i).
  - destruct (errors !! i0) as [e0|] eqn:He0.
    + fold (self_errors_at self_errors i0).
      destruct (_merge_errors_one_for_include_self e0 _) as [e0'|err] eqn:Hm; [|done].
      cbn. intros Hrest i. specialize (IH _ Hrest i).
      destruct (decide (i = i0)) as [->|Hne].
      * rewrite lookup_insert_eq in IH. rewrite decide_False in IH by done.
        rewrite He0. rewrite decide_True by (apply elem_of_cons; by left). eauto.
      * rewrite lookup_insert_ne in IH by done.
        destruct (errors !! i) as [e|]; [|done].
        destruct (decide (i ∈ indices)) as [Hin|Hin].
        -- by rewrite decide_True by (apply elem_of_cons; by right).
        -- rewrite decide_False; [done|]. by intros [?|?]%elem_of_cons.
    + intros Hrest i. specialize (IH _ Hrest i).
      destruct (errors !! i) as [e|] eqn:He; [|done].
      assert (i ≠ i0) as Hne by (intros ->; by rewrite He0 in He).
      destruct (decide (i ∈ indices)) as [Hin|Hin].
      * by rewrite decide_True by (apply elem_of_cons; by right).
      * rewrite decide_False; [done|]. by intros [?|?]%elem_of_cons.
Qed.

Lemma merge_indices_returns (indices : list nat) (errors : gmap nat errdict)
    (self_errors : option (gmap nat errdict)) :
  NoDup indices →
  (∀ i e, i ∈ indices → errors !! i = Some e →
          ∃ e', _merge_errors_one_for_include_self e
                  (self_errors_at self_errors i) = Ok e') →
  ∃ merged, merge_indices indices errors self_errors = Ok merged.
Proof.
  intros Hnd. revert errors.
  induction Hnd as [|i0 indices Hi0 Hnd IH]; intros errors Hok; cbn [merge_indices].
  - eauto.
  - destruct (errors !! i0) as [e0|] eqn:He0.
    + fold (self_errors_at self_errors i0).
      destruct (Hok i0 e0) as [e0' ->]; [apply elem_of_cons; by left|done|].
      cbn. apply IH. intros i e Hin Hi.
      rewrite lookup_insert_ne in Hi by (by intros ->).
      apply (Hok i e); [apply elem_of_cons; by right|done].
    + apply IH. intros i e Hin Hi. apply (Hok i e); [apply elem_of_cons; by right|done].
Qed.

(** X15: over a batch the self-merge rule rewrites exactly the entries it
    finds: when it returns, the merged mapping has the same item indices
    as the batch errors, an entry below [size] holds the single-item rule
    applied to it and to the own errors of that item, and an entry from
    [size] on is unchanged. No entry is added for an item without errors
    and none is removed. *)
Theorem _merge_errors_for_include_self_spec (errors merged : gmap nat errdict)
    (self_errors : option (gmap nat errdict)) (size : nat) :
  _merge_errors_for_include_self errors self_errors size = Ok merged →
  dom merged = dom errors
  ∧ ∀ i e, errors !! i = Some e →
      if decide (i < size)%nat
      then ∃ e', _merge_errors_one_for_include_self e
                   (self_errors_at self_errors i) = Ok e'
                 ∧ merged !! i = Some e'
      else merged !! i = Some e.
Proof.
  unfold _merge_errors_for_include_self. intros Hm.
  pose proof (merge_indices_spec _ _ _ _ (NoDup_seq 0 size) Hm) as Hspec.
  split.
  - apply set_eq. intros i. rewrite !elem_of_dom. specialize (Hspec i).
    destruct (errors !! i) as [e|].
    + destruct (decide (i ∈ seq 0 size)).
      * destruct Hspec as (e' & _ & ->). split; eauto.
      * rewrite Hspec. split; eauto.
    + rewrite Hspec. split; by intros [? ?].
  - intros i e Hi. specialize (Hspec i). rewrite Hi in Hspec.
    destruct (decide (i < size)%nat) as [Hlt|Hge].
    + rewrite decide_True in Hspec; [done|]. apply elem_of_seq. lia.
    + rewrite decide_False in Hspec; [done|]. rewrite elem_of_seq. lia.
Qed.

Lemma _merge_errors_for_include_self_spec_witness :
  ∃ merged : gmap nat errdict,
    _merge_errors_for_include_self
      {[ 1%nat := Examples.not_matched_A_self ]} None 2 = Ok merged
    ∧ dom merged = {[ 1%nat ]}
    ∧ merged !! 1%nat = Some ∅.
Proof.
  exists {[ 1%nat := ∅ ]}.
  assert (_merge_errors_for_include_self
            {[ 1%nat := Examples.not_matched_A_self ]} None 2
          = Ok {[ 1%nat := ∅ ]}) as Hm by (vm_compute; reflexivity).
  split; [exact Hm|].
  destruct (_merge_errors_for_include_self_spec _ _ _ _ Hm) as [Hdom _].
  split; [by rewrite Hdom, dom_singleton_L|]. apply lookup_singleton_eq.
Defined.

(** ** [marshall] and [unmarshall] *)

Lemma update_each_cases (d res : list pydict) :
  ((length res ≤ length d)%nat →
   ∃ d', update_each d res = Ok d'
         ∧ length d' = length d
         ∧ ∀ i, d' !! i = match d !! i, res !! i with
                          | Some di, Some r => Some (update di r)
                          | di, _ => di
                          end)
  ∧ ((length d < length res)%nat → update_each d res = Raise IndexError).
Proof.
  revert d. induction res as [|r res IH]; intros d.
  - split; [|cbn; lia]. intros _. exists d. split; [done|]. split; [done|].
    intros i. rewrite lookup_nil. by destruct (d !! i).
  - destruct d as [|di d]; cbn [update_each length].
    + split; [lia|done].
    + destruct (IH d) as [Hok Hraise]. split.
      * intros Hlen. destruct Hok as (d' & -> & Hlen' & Hlook); [lia|].
        cbn. eexists. split; [done|]. split; [cbn; lia|].
        intros [|i]; [done|]. apply Hlook.
      * intros Hlen. by rewrite Hraise by lia.
Qed.

(** X16: [d[i].update(result[i])] over the own results: when there are no
    more own results than aggregated values, every value is updated by the
    own result of its index and the values beyond stay as they are; when
    there are more, the loop raises [IndexError]. *)
Theorem update_each_spec (d res : list pydict) :
  ((length res ≤ length d)%nat →
   ∃ d', update_each d res = Ok d'
         ∧ length d' = length d
         ∧ ∀ i, d' !! i = match d !! i, res !! i with
                          | Some di, Some r => Some (update di r)
                          | di, _ => di
                          end)
  ∧ ((length d < length res)%nat → update_each d res = Raise IndexError).
Proof. apply update_each_cases. Qed.

Lemma update_each_spec_witness :
  (∃ d', update_each [Examples.x1; Examples.z3] [Examples.z3] = Ok d'
         ∧ length d' = 2%nat
         ∧ d' !! 0%nat = Some (update Examples.x1 Examples.z3)
         ∧ d' !! 1%nat = Some Examples.z3)
  ∧ update_each [Examples.x1] [Examples.z3; Examples.z3] = Raise IndexError.
Proof.
  destruct (update_each_spec [Examples.x1; Examples.z3] [Examples.z3]) as [Hok _].
  destruct (update_each_spec [Examples.x1] [Examples.z3; Examples.z3]) as [_ Hraise].
  split; [|apply Hraise; cbn; lia].
  destruct Hok as (d' & Hd' & Hlen & Hlook); [cbn; lia|].
  exists d'. split; [exact Hd'|]. split; [exact Hlen|].
  split; rewrite Hlook; reflexivity.
Defined.

Lemma update_empty_iff {V} (d other : gmap string V) :
  update d other = ∅ ↔ d = ∅ ∧ other = ∅.
Proof.
  unfold update. split.
  - intros Hempty. pose proof (map_positive_l _ _ Hempty) as ->.
    by rewrite (left_id_L ∅ (∪)) in Hempty.
  - intros [-> ->]. by rewrite (left_id_L ∅ (∪)).
Qed.

(** X17: without [include_self], [marshall] on one item whose candidates
    were found returns normally exactly when neither the policy nor the
    own pass reported an error. The value it returns or attaches to its
    [ValidationError] is the aggregated value updated by the own result,
    the errors it raises are the policy's errors updated by the own
    ones. *)
Theorem marshall_without_self (self : Composed)
    (_marshaller : pydict → validated pydict errdict) (obj d : pydict)
    (errors : errdict) :
  include_self self = false →
  _marshall_one self obj = Ok (d, errors) →
  ∃ out : validated pydict errdict,
    marshall self _marshaller obj = Ok out
    ∧ carried out = update d (carried (_marshaller obj))
    ∧ (is_valid out = true
       ↔ errors = ∅ ∧ default ∅ (own_pass (_marshaller obj)).2 = ∅)
    ∧ ∀ e data, out = ValidationError e data →
                e = update errors (default ∅ (own_pass (_marshaller obj)).2).
Proof.
  intros Hself Hone. unfold marshall. rewrite Hone, Hself.
  destruct (_marshaller obj) as [res|self_errors data]; cbn.
  - destruct (decide (errors = ∅)) as [->|Hne]; eexists; (split; [done|]).
    + split; [done|]. split; [done|]. intros e data [=].
    + split; [done|]. split.
      * split; [by intros [=]|]. by intros [? _].
      * intros e data [= <- _]. unfold update. by rewrite (left_id_L ∅ (∪)).
  - destruct (decide (update errors self_errors = ∅)) as [Hempty|Hne];
      eexists; (split; [done|]).
    + split; [done|]. split; [|intros e dat [=]].
      split; [intros _; by apply update_empty_iff|done].
    + split; [done|]. split; [|by intros e dat [= <- _]].
      split; [by intros [=]|]. intros Hboth. by apply update_empty_iff in Hboth.
Qed.

Lemma marshall_without_self_witness :
  marshall Examples.composed_AB MoreExamples.accept Examples.x1
  = Ok (Valid Examples.x1)
  ∧ ∃ e data, marshall Examples.composed_AB MoreExamples.reject Examples.x1
              = Ok (ValidationError e data)
              ∧ e = Examples.name_missing.
Proof.
  split.
  - destruct (marshall_without_self Examples.composed_AB MoreExamples.accept
                Examples.x1 Examples.x1 ∅ eq_refl)
      as (out & -> & Hcarried & Hvalid & _); [vm_compute; reflexivity|].
    destruct out as [v|e dat].
    + cbn in Hcarried. rewrite Hcarried. vm_compute. reflexivity.
    + destruct Hvalid as [_ Hvalid]. cbn in Hvalid. by discriminate Hvalid.
  - destruct (marshall_without_self Examples.composed_AB MoreExamples.reject
                Examples.x1 Examples.x1 ∅ eq_refl)
      as (out & -> & _ & Hvalid & Herrors); [vm_compute; reflexivity|].
    destruct out as [v|e dat].
    + destruct Hvalid as [Hvalid _]. destruct (Hvalid eq_refl) as [_ Hempty].
      vm_compute in Hempty. discriminate Hempty.
    + exists e, dat. split; [done|]. rewrite (Herrors e dat eq_refl).
      vm_compute. reflexivity.
Defined.

(** X18: for a oneOf schema that counts itself and has no discriminator,
    [marshall] on one item that is a dictionary returns a value or a
    [ValidationError], and it returns normally exactly when exactly one
    among the structurally matched candidates and the schema's own pass
    succeeded. *)
Theorem marshall_oneof_with_self (f : SchemaFinder) (one : OneOfSchema.t)
    (_marshaller : pydict → validated pydict errdict) (obj : pydict) :
  discriminator_name f = None →
  ∃ (out : validated pydict errdict) (cands : list Schema),
    find_matched_schemas f obj = Ok cands
    ∧ marshall {| finder := f; final_check := OneOfSchema.final_check one;
                  include_self := true |} _marshaller obj = Ok out
    ∧ (is_valid out = true
       ↔ (length (succeeded (λ s, dump s obj) cands)
          + (if is_valid (_marshaller obj) then 1 else 0) = 1)%nat).
Proof.
  intros Hd. unfold marshall, _marshall_one. cbn [finder final_check include_self].
  rewrite find_matched_schemas_kept by done. cbn [mbind result_bind].
  set (cands := filter _ _).
  destruct (oneof_then_merge one obj (λ s, dump s obj) cands
              (own_pass (_marshaller obj)).2)
    as (value & errors & merged & -> & Hm & Hiff).
  assert ((if (own_pass (_marshaller obj)).2 is None then 1 else 0)
          = (if is_valid (_marshaller obj) then 1 else 0))%nat as Hown
    by (by destruct (_marshaller obj)).
  rewrite Hown in Hiff.
  destruct (own_pass (_marshaller obj)) as [res self_errors] eqn:Hpass.
  cbn [snd] in Hm. cbn [mbind result_bind negb]. rewrite Hm. cbn [mbind result_bind].
  destruct (decide (merged = ∅)) as [Hempty|Hne]; eexists _, cands.
  - do 2 (split; [done|]). cbn. by rewrite <-Hiff.
  - do 2 (split; [done|]). cbn. rewrite <-Hiff. by split.
Qed.

(** X19: for a oneOf schema that counts itself and has no discriminator,
    [unmarshall] on one item never lets a builtin exception escape, loads
    every declared variant, and leaves no error exactly when exactly one
    among the declared variants and the schema's own pass succeeded. *)
Theorem unmarshall_oneof_with_self (f : SchemaFinder) (one : OneOfSchema.t)
    (_unmarshaller : pydict → bool → validated pydict errdict)
    (data : pydict) (partial : bool) :
  discriminator_name f = None →
  ∃ (d : pydict) (errors : errdict),
    unmarshall {| finder := f; final_check := OneOfSchema.final_check one;
                  include_self := true |} _unmarshaller data partial
    = Ok (d, errors)
    ∧ (errors = ∅
       ↔ (length (succeeded (λ s, load s data partial) (schemas f))
          + (if is_valid (_unmarshaller data partial) then 1 else 0) = 1)%nat).
Proof.
  intros Hd. unfold unmarshall, _unmarshall_one, find_schemas.
  cbn [finder final_check include_self]. rewrite Hd. cbn [mbind result_bind].
  destruct (oneof_then_merge one data (λ s, load s data partial) (schemas f)
              (own_pass (_unmarshaller data partial)).2)
    as (value & errors & merged & -> & Hm & Hiff).
  assert ((if (own_pass (_unmarshaller data partial)).2 is None then 1 else 0)
          = (if is_valid (_unmarshaller data partial) then 1 else 0))%nat as Hown
    by (by destruct (_unmarshaller data partial)).
  rewrite Hown in Hiff.
  destruct (own_pass (_unmarshaller data partial)) as [res self_errors] eqn:Hpass.
  cbn [snd] in Hm. cbn [mbind result_bind negb]. rewrite Hm. cbn [mbind result_bind].
  by eexists _, _.
Qed.

Lemma marshall_oneof_with_self_witness :
  ∃ v, marshall MoreExamples.composed_AB_self MoreExamples.accept Examples.z3
       = Ok (Valid v).
Proof.
  destruct (marshall_oneof_with_self (Examples.finder_of [Examples.A; Examples.B])
              (Examples.oneof_AB true) MoreExamples.accept Examples.z3 eq_refl)
    as (out & cands & Hcands & Hout & Hvalid).
  destruct out as [v|e data]; [by exists v|].
  vm_compute in Hcands. injection Hcands as <-.
  destruct Hvalid as [_ Hvalid]. discriminate (Hvalid eq_refl).
Defined.

Lemma unmarshall_oneof_with_self_witness :
  ∃ d, unmarshall MoreExamples.composed_AB_self (λ data _, MoreExamples.accept data)
         Examples.z3 false = Ok (d, ∅).
Proof.
  destruct (unmarshall_oneof_with_self (Examples.finder_of [Examples.A; Examples.B])
              (Examples.oneof_AB true) (λ data _, MoreExamples.accept data)
              Examples.z3 false eq_refl)
    as (d & errors & Hout & Hvalid).
  assert (errors = ∅) as -> by (apply Hvalid; reflexivity).
  exists d. exact Hout.
Defined.

(** ** A batch of a schema that counts itself *)

Lemma succeeded_nil (call : Schema → pydict * errdict) (l : list Schema) :
  Forall (λ s, (call s).2 ≠ ∅) l → succeeded call l = [].
Proof.
  induction 1 as [|s l Hs Hall IH]; [done|].
  by rewrite succeeded_cons, decide_False.
Qed.

Lemma _marshall_one_no_match (f : SchemaFinder) (one : OneOfSchema.t) (flag : bool)
    (item : pydict) :
  discriminator_name f = None →
  (∀ s, s ∈ schemas f → (dump s item).2 ≠ ∅) →
  ∃ (value : pydict) (names : list string),
    _marshall_one {| finder := f; final_check := OneOfSchema.final_check one;
                     include_self := flag |} item
    = Ok (value, {[ "_schema" := [not_matched_message names] ]}).
Proof.
  intros Hd Hfail. unfold _marshall_one. cbn [finder final_check].
  rewrite find_matched_schemas_kept by done. cbn [mbind result_bind].
  unfold aggregate. rewrite attempt_all, succeeded_nil.
  - by eexists _, _.
  - apply Forall_forall. intros s [_ Hs%elem_of_kept_variants]%list_elem_of_filter.
    apply Hfail. by destruct (last_with_signature _ _ _ Hs).
Qed.

(** X20: a quirk of batches. Take a oneOf schema that counts itself and
    has no discriminator, and items on which every declared variant fails
    while the schema's own pass accepts them. One at a time [marshall]
    returns each item normally. As a batch [marshall] raises
    [ValidationError]: the rule empties the error mapping of every item
    but leaves it in place under the item's index, so the batch errors are
    not empty. *)
Theorem marshall_many_self_alone (f : SchemaFinder) (one : OneOfSchema.t)
    (_marshaller : list pydict → validated (list pydict) (gmap nat errdict))
    (obj res : list pydict) :
  discriminator_name f = None →
  _marshaller obj = Valid res →
  length res = length obj →
  obj ≠ [] →
  (∀ item s, item ∈ obj → s ∈ schemas f → (dump s item).2 ≠ ∅) →
  (∀ item own, item ∈ obj →
     ∃ v, marshall {| finder := f; final_check := OneOfSchema.final_check one;
                      include_self := true |} (λ _, Valid own) item
          = Ok (Valid v))
  ∧ ∃ errors d,
      marshall_many {| finder := f; final_check := OneOfSchema.final_check one;
                       include_self := true |} _marshaller obj
      = Ok (ValidationError errors d)
      ∧ length d = length obj
      ∧ ∀ i, errors !! i = if decide (i < length obj)%nat then Some ∅ else None.
Proof.
  intros Hd Hown Hlen Hne Hfail.
  set (self := {| finder := f; final_check := OneOfSchema.final_check one;
                  include_self := true |}).
  split.
  - intros item own Hitem.
    destruct (_marshall_one_no_match f one true item Hd) as (value & names & Hone).
    { intros s. by apply Hfail. }
    fold self in Hone. unfold marshall. rewrite Hone. subst self.
    cbn [own_pass mbind result_bind include_self negb].
    rewrite merge_not_matched. cbn [mbind result_bind].
    rewrite decide_True by done. eauto.
  - pose (out := λ item, match _marshall_one self item with
                         | Ok o => o
                         | Raise _ => (item, ∅)
                         end).
    assert (∀ item, item ∈ obj →
              _marshall_one self item = Ok (out item)
              ∧ ∃ names, (out item).2 = {[ "_schema" := [not_matched_message names] ]})
      as Hout.
    { intros item Hitem.
      destruct (_marshall_one_no_match f one true item Hd) as (value & names & Hone).
      { intros s. by apply Hfail. }
      fold self in Hone. unfold out. rewrite Hone. split; [done|]. by exists names. }
    destruct (run_many_from_spec (_marshall_one self) 0 obj (out <$> obj) [] ∅)
      as (errors & Hrun & Hlook).
    { apply Forall2_fmap_r, Forall_Forall2_diag, Forall_forall.
      intros item Hitem. by apply Hout. }
    { intros j _. apply lookup_empty. }
    assert (∀ i, errors !! i
                 = if decide (i < length obj)%nat
                   then (λ item, (out item).2) <$> obj !! i else None) as Herrors.
    { intros i. rewrite Hlook, decide_False by lia. rewrite Nat.sub_0_r.
      unfold item_error. rewrite list_lookup_fmap.
      destruct (obj !! i) as [item|] eqn:Hi; cbn.
      - rewrite decide_True by (by eapply lookup_lt_Some).
        destruct (out item) as [v e] eqn:Hv. cbn.
        destruct (Hout item) as [_ [names Hnames]]; [by eapply list_elem_of_lookup_2|].
        rewrite Hv in Hnames. cbn in Hnames. subst e.
        by rewrite decide_False by apply map_non_empty_singleton.
      - by destruct (decide _). }
    destruct (update_each_cases ((out <$> obj).*1) res) as [Hupd _].
    destruct Hupd as (d & Hd' & Hdlen & _); [by rewrite !length_fmap, Hlen|].
    destruct (merge_indices_returns (seq 0 (length res)) errors None (NoDup_seq _ _))
      as [merged Hmerged].
    { intros i e _ Hi. rewrite Herrors in Hi.
      destruct (decide (i < length obj)%nat); [|done].
      destruct (obj !! i) as [item|] eqn:Hitem; [|done]. cbn in Hi.
      destruct (Hout item) as [_ [names Hnames]]; [by eapply list_elem_of_lookup_2|].
      injection Hi as <-. rewrite Hnames, merge_not_matched. eauto. }
    exists merged, d.
    assert (∀ i, merged !! i = if decide (i < length obj)%nat then Some ∅ else None)
      as Hmergedlook.
    { intros i.
      pose proof (merge_indices_spec _ _ _ _ (NoDup_seq _ _) Hmerged i) as Hspec.
      rewrite Herrors in Hspec.
      destruct (decide (i < length obj)%nat) as [Hlt|Hge]; [|done].
      destruct (obj !! i) as [item|] eqn:Hitem.
      - cbn [fmap option_fmap option_map] in Hspec.
        rewrite decide_True in Hspec by (apply elem_of_seq; lia).
        destruct Hspec as (e' & He' & ->). cbn [self_errors_at] in He'.
        destruct (Hout item) as [_ [names Hnames]]; [by eapply list_elem_of_lookup_2|].
        rewrite Hnames, merge_not_matched in He'. by injection He' as <-.
      - apply lookup_ge_None in Hitem. lia. }
    split; [|split; [by rewrite Hdlen, !length_fmap|exact Hmergedlook]].
    unfold marshall_many. rewrite Hown. cbn [own_pass].
    unfold run_many. rewrite Hrun. cbn [mbind result_bind app].
    rewrite Hd'. subst self. cbn [mbind result_bind include_self negb].
    unfold _merge_errors_for_include_self. rewrite Hmerged. cbn [mbind result_bind].
    rewrite decide_False; [done|].
    intros Hempty. specialize (Hmergedlook 0%nat).
    rewrite Hempty, lookup_empty in Hmergedlook.
    destruct obj; [done|]. cbn in Hmergedlook. done.
Qed.

Lemma marshall_many_self_alone_witness :
  (∃ v, marshall MoreExamples.composed_AB_self (λ _, Valid Examples.z3) Examples.z3
        = Ok (Valid v))
  ∧ ∃ errors d,
      marshall_many MoreExamples.composed_AB_self MoreExamples.accept_many
        [Examples.z3] = Ok (ValidationError errors d)
      ∧ errors !! 0%nat = Some ∅.
Proof.
  destruct (marshall_many_self_alone (Examples.finder_of [Examples.A; Examples.B])
              (Examples.oneof_AB true) MoreExamples.accept_many
              [Examples.z3] [Examples.z3] eq_refl eq_refl eq_refl)
    as [Hone (errors & d & Hmany & _ & Hlook)].
  - discriminate.
  - intros item s ->%list_elem_of_singleton Hs.
    apply elem_of_cons in Hs as [->|Hs]; [by vm_compute|].
    apply list_elem_of_singleton in Hs as ->. by vm_compute.
  - split.
    + apply (Hone Examples.z3 Examples.z3). apply list_elem_of_singleton. reflexivity.
    + exists errors, d. split; [exact Hmany|]. by rewrite Hlook.
Defined.
